(** * Controller databases: packages/lib/src/database.ts

    A shallow embedding of the item ledger ([ItemDatabase]) and of the
    JSON map codec ([mapToObject], [loadJsonAsMap], [saveMapAsJson],
    [loadJsonArrayAsMap], [saveMapAsJsonArray]), with the fragment of
    JavaScript they run on, followed by the properties they have.

    - Numbers are IEEE 754 binary64 values: the kernel's primitive floats,
      whose operations are specified by [Prim2SF].
    - Strings are only compared and concatenated: they are [string]s.
    - A plain object is the list of its own enumerable properties, in the
      order in which JavaScript enumerates them.  Its prototype is
      [Object.prototype], as it is when the program starts: a read of a
      key the object lacks finds the members of [Object.prototype], and a
      write that lands on one of those members is not followed;
      [serialize_outcome] tells where [serialize] makes such a write.
    - A [Map] is the list of its entries in insertion order.
    - Values are trees.  Every function takes the state it works on and
      returns the new one; an object shared between the ledger and its
      caller is not followed either.
    - A call returns ([Ok]) or throws ([Throw]).
    - The content of a file is taken up to the grammar of JSON.
    - [basicType] ([./helpers]) and [safeOutputFile] ([./file_ops]) are
      not among the sources; they are modelled from the specification. *)

From Stdlib Require Import Bool Ascii String List NArith ZArith Floats Lia Sorted.
Import ListNotations.
Local Open Scope string_scope.
Local Open Scope list_scope.

(** ** Outcomes of a call *)

Inductive exn :=
| Error (message : string)        (* [new Error(message)] *)
| SyntaxError                     (* raised by [JSON.parse] *)
| SystemError (code : string).    (* a file system error and its [code] *)

Inductive result (A : Type) :=
| Ok (a : A)
| Throw (e : exn).
Arguments Ok {A} a.
Arguments Throw {A} e.

Definition bind {A B} (r : result A) (k : A -> result B) : result B :=
  match r with
  | Ok a => k a
  | Throw e => Throw e
  end.

Notation "x <- r ;; k" := (bind r (fun x => k))
  (at level 61, r at next level, right associativity).

(** ** The JavaScript fragment *)

Module JS.

Definition number := float.

(** Data values.  An object is the list of its own enumerable properties
    in property order (see [define]). *)
#[warnings="-register-all"]
Inductive value :=
| VUndefined
| VNull
| VBool (b : bool)
| VNum (x : number)
| VStr (s : string)
| VArr (elems : list value)
| VObj (members : list (string * value)).

Definition typeof (v : value) : string :=
  match v with
  | VUndefined => "undefined"
  | VNull => "object"
  | VBool _ => "boolean"
  | VNum _ => "number"
  | VStr _ => "string"
  | VArr _ => "object"
  | VObj _ => "object"
  end.

(** [x === 0] on numbers: [-0] equals [0], [NaN] equals nothing. *)
Definition is_zero (x : number) : bool := (x =? 0)%float.

(** ToBoolean on a number. *)
Definition number_truthy (x : number) : bool :=
  negb (is_zero x) && negb (is_nan x).

(** The number an integer denotes: the binary64 value nearest to it, which
    is the integer itself up to 2^53 in magnitude. *)
Definition of_Z (z : Z) : number :=
  SF2Prim (binary_normalize prec emax z 0 false).

Definition exact_integer (z : Z) : Prop := (- 2 ^ 53 <= z <= 2 ^ 53)%Z.

Definition truthy (v : value) : bool :=
  match v with
  | VUndefined | VNull => false
  | VBool b => b
  | VNum x => number_truthy x
  | VStr s => negb (s =? "")
  | VArr _ | VObj _ => true
  end.

(** *** Property keys and property order

    The own keys of an ordinary object come out with the array indices
    first, in ascending numeric order, and then the other strings in the
    order in which they were created. *)

Definition digit (c : ascii) : option N :=
  let n := N_of_ascii c in
  if (48 <=? n)%N && (n <=? 57)%N then Some (n - 48)%N else None.

Fixpoint decimal (s : string) (acc : N) : option N :=
  match s with
  | EmptyString => Some acc
  | String c s' =>
      match digit c with
      | Some d => decimal s' (10 * acc + d)%N
      | None => None
      end
  end.

(** A canonical numeric string below 2^32 - 1. *)
Definition array_index (k : string) : option N :=
  match k with
  | EmptyString => None
  | String c rest =>
      if (c =? "0")%char && negb (rest =? "") then None
      else match decimal k 0 with
           | Some n => if (n <=? 4294967294)%N then Some n else None
           | None => None
           end
  end.

(** The number of characters of a key. *)
Definition width (s : string) : N := N.of_nat (String.length s).

Section Properties.
Context {A : Type}.

Fixpoint own (o : list (string * A)) (k : string) : option A :=
  match o with
  | [] => None
  | (k', v) :: o' => if k' =? k then Some v else own o' k
  end.

Definition has_own (o : list (string * A)) (k : string) : bool :=
  match own o k with Some _ => true | None => false end.

Fixpoint replace (o : list (string * A)) (k : string) (v : A) :=
  match o with
  | [] => []
  | (k', v') :: o' =>
      if k' =? k then (k', v) :: o' else (k', v') :: replace o' k v
  end.

(** A new array index [i] goes before the first key that is not an
    array index or is a greater one. *)
Fixpoint insert_index (o : list (string * A)) (i : N) (k : string) (v : A) :=
  match o with
  | [] => [(k, v)]
  | (k', v') :: o' =>
      match array_index k' with
      | Some j =>
          if (j <? i)%N then (k', v') :: insert_index o' i k v
          else (k, v) :: o
      | None => (k, v) :: o
      end
  end.

(** CreateDataProperty: the value of an own key is replaced where it
    stands, a new key takes its place in property order. *)
Definition define (o : list (string * A)) (k : string) (v : A) :=
  if has_own o k then replace o k v
  else match array_index k with
       | Some i => insert_index o i k v
       | None => o ++ [(k, v)]
       end.

(** [o[k] = v] on an ordinary object whose prototype is
    [Object.prototype]: an own property is updated; the inherited
    setter [__proto__] creates no property (it ignores a primitive and
    takes an object or [null] as the new prototype); any other key
    becomes an own property. *)
Definition assign (o : list (string * A)) (k : string) (v : A) :=
  if has_own o k then define o k v
  else if k =? "__proto__" then o
  else define o k v.

Definition keys (o : list (string * A)) : list string := map fst o.
End Properties.

(** [k1] may stand before [k2] among the own keys of an object: they
    differ, and if [k2] is an array index then [k1] is a smaller one. *)
Definition before (k1 k2 : string) : Prop :=
  k1 <> k2 /\
  forall i2, array_index k2 = Some i2 ->
             exists i1, array_index k1 = Some i1 /\ (i1 < i2)%N.

(** The own keys of an object are distinct and come in property order. *)
Definition property_order {A} (o : list (string * A)) : Prop :=
  StronglySorted before (keys o).

(** The properties whose key is not an array index. *)
Definition plain {A} (e : string * A) : bool :=
  match array_index (fst e) with Some _ => false | None => true end.

(** The properties every ordinary object inherits from [Object.prototype]. *)
Definition Object_prototype : list string :=
  [ "constructor"; "__defineGetter__"; "__defineSetter__"; "hasOwnProperty";
    "__lookupGetter__"; "__lookupSetter__"; "isPrototypeOf";
    "propertyIsEnumerable"; "toString"; "valueOf"; "__proto__";
    "toLocaleString" ].

Definition inherited (k : string) : bool :=
  existsb (String.eqb k) Object_prototype.

(** *** Map: entries in insertion order, one per key *)

Section Map.
Context {K V : Type} (same : K -> K -> bool).

Fixpoint map_get (m : list (K * V)) (k : K) : option V :=
  match m with
  | [] => None
  | (k', v) :: m' => if same k' k then Some v else map_get m' k
  end.

Definition map_has (m : list (K * V)) (k : K) : bool :=
  match map_get m k with Some _ => true | None => false end.

Fixpoint map_set (m : list (K * V)) (k : K) (v : V) : list (K * V) :=
  match m with
  | [] => [(k, v)]
  | (k', v') :: m' =>
      if same k' k then (k', v) :: m' else (k', v') :: map_set m' k v
  end.
End Map.

End JS.
Import JS.

(** ** The item ledger *)

(** What a quality property of a count record can hold or read as.  A
    restored or freshly built record holds numbers.  Reading a key that is
    not an own property reaches [Object.prototype], and adding a number to
    what is found there is string concatenation: [Builtin k] is the member
    [k] of [Object.prototype] and [Glued l x] the string made of the text
    of [l] followed by the text of [x]. *)
Inductive slot :=
| Data (v : value)
| Builtin (k : string)
| Glued (l : slot) (x : number).

Definition Num (x : number) : slot := Data (VNum x).

Definition slot_truthy (s : slot) : bool :=
  match s with
  | Data v => truthy v
  | Builtin _ => true
  | Glued _ _ => true
  end.

(** [s ?? d] *)
Definition coalesce (s d : slot) : slot :=
  match s with
  | Data VUndefined | Data VNull => d
  | _ => s
  end.

(** [s !== 0] *)
Definition differs_from_zero (s : slot) : bool :=
  match s with
  | Data (VNum x) => negb (is_zero x)
  | _ => true
  end.

(** [s + c] for a number [c]. *)
Definition js_add (s : slot) (c : number) : slot :=
  match s with
  | Data (VNum a) => Num (a + c)%float
  | Data (VBool b) => Num ((if b then 1 else 0) + c)%float
  | Data VNull => Num (0 + c)%float
  | Data VUndefined => Num (nan + c)%float
  | _ => Glued s c
  end.

(** [{ [quality: string]: number }], a plain object. *)
Definition ItemCountWithQuality := list (string * slot).

(** [qualities[quality]] *)
Definition get (qualities : ItemCountWithQuality) (quality : string) : slot :=
  match own qualities quality with
  | Some s => s
  | None => if inherited quality then Builtin quality else Data VUndefined
  end.

Definition checkName (name : value) : result string :=
  match name with
  | VStr s => Ok s
  | _ => Throw (Error "name must be a string")
  end.

Definition checkCount (count : slot) : result number :=
  match count with
  | Data (VNum x) =>
      if is_nan x then Throw (Error "count must be a number") else Ok x
  | _ => Throw (Error "count must be a number")
  end.

Definition checkQuality (quality : value) : result string :=
  match quality with
  | VStr s => Ok s
  | _ => Throw (Error "quality must be a string")
  end.

Record ItemDatabase := { _items : list (string * ItemCountWithQuality) }.

(** What a serialized database holds under an item name: a number, in the
    format that had no qualities, or a record of counts.  The counts of
    the record are of any kind, [checkCount] looks at each.  A value
    that is neither a number nor a plain object is outside the
    embedding. *)
Inductive entry :=
| Bare (x : number)
| Qualities (q : list (string * slot)).

(** [typeof qualities === "number"] then [qualities = { normal: qualities }] *)
Definition migrate (e : entry) : ItemCountWithQuality :=
  match e with
  | Bare x => [("normal", Num x)]
  | Qualities q => q
  end.

Fixpoint check_counts (counts : list slot) : result unit :=
  match counts with
  | [] => Ok tt
  | count :: rest => _ <- checkCount count ;; check_counts rest
  end.

Fixpoint restore (items : list (string * ItemCountWithQuality))
    (entries : list (string * entry))
  : result (list (string * ItemCountWithQuality)) :=
  match entries with
  | [] => Ok items
  | (name, e) :: rest =>
      _ <- checkName (VStr name) ;;
      let qualities := migrate e in
      _ <- check_counts (map snd qualities) ;;
      restore (map_set String.eqb items name qualities) rest
  end.

(** [new ItemDatabase(serialized)], [serialized] by its entries. *)
Definition constructor (serialized : option (list (string * entry)))
  : result ItemDatabase :=
  match serialized with
  | None => Ok {| _items := [] |}
  | Some entries => items <- restore [] entries ;; Ok {| _items := items |}
  end.

(** The object returned by [serialize], by its own properties. *)
Definition snapshot := list (string * ItemCountWithQuality).

(** The body of the inner loop of [serialize].  When [name] is not an own
    key of [obj] but names a member of [Object.prototype], [obj[name]] is
    that member: no property is created and the count is written on the
    member, not on [obj]. *)
Definition serialize_quality (name : string) (qualities : ItemCountWithQuality)
    (obj : snapshot) (quality : string) : snapshot :=
  if differs_from_zero (get qualities quality) then
    let obj :=
      if has_own obj name || inherited name then obj else define obj name []
    in
    match own obj name with
    | Some target => define obj name (assign target quality (get qualities quality))
    | None => obj
    end
  else obj.

Definition serialize_item (obj : snapshot)
    (item : string * ItemCountWithQuality) : snapshot :=
  let (name, qualities) := item in
  fold_left (serialize_quality name qualities) (keys qualities) obj.

Definition serialize (db : ItemDatabase) : snapshot :=
  fold_left serialize_item (_items db) [].

Definition size (db : ItemDatabase) : nat := length (_items db).

Definition getItemCount (db : ItemDatabase) (name quality : value)
  : result slot :=
  name <- checkName name ;;
  quality <- checkQuality quality ;;
  match map_get String.eqb (_items db) name with
  | None => Ok (Num 0%float)
  | Some qualities =>
      if negb (slot_truthy (get qualities quality)) then Ok (Num 0%float)
      else Ok (get qualities quality)
  end.

(** [this._items.has(name)] is [map_get] finding the record. *)
Definition addItem (db : ItemDatabase) (name : value) (count : slot)
    (quality : value) : result ItemDatabase :=
  name <- checkName name ;;
  count <- checkCount count ;;
  quality <- checkQuality quality ;;
  match map_get String.eqb (_items db) name with
  | None =>
      Ok {| _items := map_set String.eqb (_items db) name [(quality, Num count)] |}
  | Some qualities =>
      let currentCount := coalesce (get qualities quality) (Num 0%float) in
      Ok {| _items := map_set String.eqb (_items db) name
                        (assign qualities quality (js_add currentCount count)) |}
  end.

Definition removeItem (db : ItemDatabase) (name : value) (count : slot)
    (quality : value) : result ItemDatabase :=
  c <- checkCount count ;;
  addItem db name (Num (- c)%float) quality.

Definition getEntries (db : ItemDatabase)
  : list (string * ItemCountWithQuality) := _items db.

(** *** The state of the ledger, as the properties below read it *)

(** The own property [quality] of the record kept for [name]. *)
Definition stored (db : ItemDatabase) (name quality : string) : option slot :=
  match map_get String.eqb (_items db) name with
  | None => None
  | Some qualities => own qualities quality
  end.

(** The count kept for [name] and [quality]: the stored number, and 0
    when nothing is stored and the read does not reach
    [Object.prototype]. *)
Definition count_of (db : ItemDatabase) (name quality : string)
  : option number :=
  match map_get String.eqb (_items db) name with
  | None => Some 0%float
  | Some qualities =>
      match own qualities quality with
      | Some (Data (VNum x)) => Some x
      | Some _ => None
      | None => if inherited quality then None else Some 0%float
      end
  end.

Definition names (db : ItemDatabase) : list string := map fst (_items db).

Definition resident (db : ItemDatabase) (name : string) : bool :=
  map_has String.eqb (_items db) name.

(** The calls a client can make on a ledger. *)
Inductive call :=
| GetItemCount (name quality : value)
| AddItem (name : value) (count : slot) (quality : value)
| RemoveItem (name : value) (count : slot) (quality : value)
| Serialize
| GetEntries.

(** The ledger after a call, whether it returned or threw.  [addItem] and
    [removeItem] throw only from their checks, before any update, and the
    other calls only read [_items]. *)
Definition after (db : ItemDatabase) (c : call) : ItemDatabase :=
  match c with
  | AddItem name count quality =>
      match addItem db name count quality with
      | Ok db' => db'
      | Throw _ => db
      end
  | RemoveItem name count quality =>
      match removeItem db name count quality with
      | Ok db' => db'
      | Throw _ => db
      end
  | GetItemCount _ _ | Serialize | GetEntries => db
  end.

(** The entries of the object [serialize] returned, as [constructor]
    receives them. *)
Definition entries_of (s : snapshot) : list (string * entry) :=
  map (fun item => (fst item, Qualities (snd item))) s.

(** The invariant of the loops of [serialize]: every name of the output
    comes from an entry of the ledger with a count that differs from 0,
    and every count of the output is such a count of that name. *)
Definition from_ledger (items : list (string * ItemCountWithQuality))
    (obj : snapshot) : Prop :=
  forall name rec, own obj name = Some rec ->
    (exists qualities q s,
        In (name, qualities) items /\ own qualities q = Some s /\
        differs_from_zero s = true) /\
    (forall q s, own rec q = Some s ->
        differs_from_zero s = true /\
        exists qualities, In (name, qualities) items /\
                          own qualities q = Some s).

(** A count that [checkCount] accepts. *)
Definition valid_count (s : slot) : Prop :=
  exists x, s = Num x /\ is_nan x = false.

(** The ledgers on which serializing and restoring is studied: every
    stored count is a number other than NaN, and a quality named
    [__proto__] has the count 0 if it has one. *)
Definition restorable (db : ItemDatabase) : Prop :=
  forall name qualities q s,
    In (name, qualities) (_items db) -> own qualities q = Some s ->
    valid_count s /\ (q = "__proto__" -> differs_from_zero s = false).

(** What [serialize] returns on such a ledger: names and qualities in
    property order, no name that [Object.prototype] has, no empty record,
    no quality named [__proto__], and only valid counts other than 0. *)
Definition normal_record (r : ItemCountWithQuality) : Prop :=
  r <> [] /\ property_order r /\
  Forall (fun p => fst p <> "__proto__" /\ valid_count (snd p) /\
                   differs_from_zero (snd p) = true) r.

Definition normal_form (s : snapshot) : Prop :=
  property_order s /\
  Forall (fun e => inherited (fst e) = false /\ normal_record (snd e)) s.

(** The object [obj] that [serialize] builds has the count [s] for
    [name] and [q]. *)
Definition written (obj : snapshot) (name q : string) (s : slot) : Prop :=
  exists rec, own obj name = Some rec /\ own rec q = Some s.

(** Every count the ledger stores is a number. *)
Definition numeric_record (r : ItemCountWithQuality) : Prop :=
  Forall (fun p => exists x, snd p = Num x) r.

Definition numeric (db : ItemDatabase) : Prop :=
  Forall (fun item => numeric_record (snd item)) (_items db).

(** A call whose quality, when it is a string, does not name a member of
    [Object.prototype]. *)
Definition plain_quality (c : call) : Prop :=
  match c with
  | AddItem _ _ (VStr q) | RemoveItem _ _ (VStr q) => inherited q = false
  | _ => True
  end.

(** *** How a call of [serialize] ends

    [serialize_quality] gives the object being built as long as no
    assignment lands on a member of [Object.prototype].  When [name] is
    not an own key of [obj] and names such a member, [obj[name]] is that
    member and [obj[name][quality] = count] is an assignment on it, in
    strict code (a class body).  The member is a function, or
    [Object.prototype] itself when [name] is [__proto__]. *)

(** Not an object and not [null]: what the setter [__proto__] ignores. *)
Definition primitive (s : slot) : bool :=
  match s with
  | Data VUndefined | Data (VBool _) | Data (VNum _) | Data (VStr _) => true
  | Glued _ _ => true
  | _ => false
  end.

(** What becomes of the assignment.  [Refused]: a [TypeError]; the
    properties [name] and [length] of a function are read-only.
    [Ignored]: the setter [__proto__] returns without doing anything.
    [Other]: the member is changed, which every later read of it sees, or
    the write is refused for a reason not listed here. *)
Inductive member_write := Refused | Ignored | Other.

Definition write_on_member (name quality : string) (s : slot) : member_write :=
  if quality =? "__proto__" then (if primitive s then Ignored else Other)
  else if name =? "__proto__" then Other
  else if (quality =? "name") || (quality =? "length") then Refused
  else Other.

(** [Returns obj]: the call returns [obj].  [ThrowsTypeError]: it throws.
    [Unfollowed]: an assignment changed a member of [Object.prototype]
    and the rest of the call is outside the embedding. *)
Inductive outcome :=
| Returns (obj : snapshot)
| ThrowsTypeError
| Unfollowed.

Definition serialize_quality_outcome (name : string)
    (qualities : ItemCountWithQuality) (st : outcome) (quality : string)
  : outcome :=
  match st with
  | Returns obj =>
      if differs_from_zero (get qualities quality) then
        if has_own obj name || negb (inherited name)
        then Returns (serialize_quality name qualities obj quality)
        else match write_on_member name quality (get qualities quality) with
             | Refused => ThrowsTypeError
             | Ignored => Returns obj
             | Other => Unfollowed
             end
      else Returns obj
  | ThrowsTypeError => ThrowsTypeError
  | Unfollowed => Unfollowed
  end.

Definition serialize_outcome (db : ItemDatabase) : outcome :=
  fold_left
    (fun st item =>
       fold_left (serialize_quality_outcome (fst item) (snd item))
         (keys (snd item)) st)
    (_items db) (Returns []).

(** Example ledgers. *)
Definition empty : ItemDatabase := {| _items := [] |}.

Definition iron1 : ItemDatabase :=
  {| _items := [("iron", [("normal", Num 1%float)])] |}.

Definition iron5 : ItemDatabase :=
  {| _items := [("iron", [("normal", Num 5%float)])] |}.

Definition iron_nan : ItemDatabase :=
  {| _items := [("iron", [("normal", Num nan)])] |}.

(** ** The JSON map codec *)

(** *** JSON texts and files

    The content of a file is taken up to the JSON grammar: a JSON text is
    its syntax tree together with the indentation it is printed with, and
    a number literal is the binary64 number it denotes.  Members of an
    object are in the order of the text and may repeat a key. *)

#[warnings="-register-all"]
Inductive json :=
| JNull
| JBool (b : bool)
| JNumber (x : number)
| JString (s : string)
| JArray (elems : list json)
| JObject (members : list (string * json)).

Inductive content :=
| Json (gap : string) (doc : json)
| NotJson.

(** The object whose properties are created from [entries], in order. *)
Definition from_entries {A} (entries : list (string * A)) : list (string * A) :=
  fold_left (fun o e => define o (fst e) (snd e)) entries [].

(** [JSON.parse] *)
Fixpoint revive (doc : json) : value :=
  match doc with
  | JNull => VNull
  | JBool b => VBool b
  | JNumber x => VNum x
  | JString s => VStr s
  | JArray elems => VArr (map revive elems)
  | JObject members =>
      VObj (from_entries (map (fun m => (fst m, revive (snd m))) members))
  end.

Definition JSON_parse (c : content) : result value :=
  match c with
  | Json _ doc => Ok (revive doc)
  | NotJson => Throw SyntaxError
  end.

(** [JSON.stringify]: [None] is the result [undefined].  A number that is
    not finite is written [null] and [-0] is written [0]; in an array
    [undefined] is written [null]; in an object a property whose value is
    [undefined] is left out. *)
Fixpoint to_json (v : value) : option json :=
  match v with
  | VUndefined => None
  | VNull => Some JNull
  | VBool b => Some (JBool b)
  | VNum x =>
      Some (if is_finite x then JNumber (if is_zero x then 0%float else x)
            else JNull)
  | VStr s => Some (JString s)
  | VArr elems =>
      Some (JArray (map (fun e => match to_json e with
                                  | Some d => d
                                  | None => JNull
                                  end) elems))
  | VObj members =>
      Some (JObject (flat_map (fun m => match to_json (snd m) with
                                        | Some d => [(fst m, d)]
                                        | None => []
                                        end) members))
  end.

(** [JSON.stringify(obj, null, gap)] for an object [obj], always a string. *)
Definition JSON_stringify_object (obj : list (string * value)) (gap : string)
  : content :=
  Json gap
    (JObject (flat_map (fun m => match to_json (snd m) with
                                 | Some d => [(fst m, d)]
                                 | None => []
                                 end) obj)).

(** [JSON.stringify(array, null, gap)] for an array. *)
Definition JSON_stringify_array (elems : list value) (gap : string) : content :=
  Json gap
    (JArray (map (fun e => match to_json e with
                           | Some d => d
                           | None => JNull
                           end) elems)).

(** What is at a path: a file and its content, or nothing that can be
    read, with the [code] of the error reading it raises.  A path with no
    file is [Unreadable "ENOENT"]. *)
Inductive file :=
| Content (c : content)
| Unreadable (code : string).

Record disk := {
  file_at : string -> file;
  refused : string -> option string   (* the error a write to the path meets *)
}.

(** [fs.readFile(path)] followed by [content.toString()] *)
Definition readFile (d : disk) (path : string) : result content :=
  match file_at d path with
  | Content c => Ok c
  | Unreadable code => Throw (SystemError code)
  end.

(** Modelled from the spec: [safeOutputFile] of [./file_ops] is not among
    the sources.  The durable write "creates missing parent directories
    and atomically replaces the file's content; must not leave a
    partially-written file visible to readers": it either fails and
    leaves the disk as it was, or puts the content at the path. *)
Definition safeOutputFile (d : disk) (path : string) (c : content)
  : disk * result unit :=
  match refused d path with
  | Some code => (d, Throw (SystemError code))
  | None =>
      ({| file_at := fun p => if p =? path then Content c else file_at d p;
          refused := refused d |}, Ok tt)
  end.

(** Modelled from the spec: [basicType] of [./helpers] is not among the
    sources.  The loaders reject "arrays, scalars, null" where an object
    is expected: [basicType] is [typeof] with [null] and arrays told
    apart from objects. *)
Definition basicType (v : value) : string :=
  match v with
  | VNull => "null"
  | VArr _ => "array"
  | _ => typeof v
  end.

(** *** Map with keys of any type

    Keys are compared with SameValueZero.  The arrays and objects at hand
    are all distinct objects, so none is the same value as another. *)
Definition same_number (x y : number) : bool :=
  (x =? y)%float || (is_nan x && is_nan y).

Definition same_value_zero (a b : value) : bool :=
  match a, b with
  | VUndefined, VUndefined => true
  | VNull, VNull => true
  | VBool x, VBool y => Bool.eqb x y
  | VNum x, VNum y => same_number x y
  | VStr s, VStr t => s =? t
  | _, _ => false
  end.

(** [map.set(k, v)]: the key [-0] is kept as [0]. *)
Definition Map_set (m : list (value * value)) (k v : value) :=
  map_set same_value_zero m
    (match k with
     | VNum x => if is_zero x then VNum 0%float else k
     | _ => k
     end) v.

Definition Map_get (m : list (value * value)) (k : value) : option value :=
  map_get same_value_zero m k.

(** [new Map(entries)] *)
Definition new_Map (entries : list (value * value)) : list (value * value) :=
  fold_left (fun m e => Map_set m (fst e) (snd e)) entries [].

(** [Object.entries(v)] for an object [v]. *)
Definition Object_entries (v : value) : list (value * value) :=
  match v with
  | VObj members => map (fun m => (VStr (fst m), snd m)) members
  | _ => []
  end.

(** *** The codec *)

Fixpoint mapToObject_from (obj : list (string * value))
    (map : list (value * value)) : result (list (string * value)) :=
  match map with
  | [] => Ok obj
  | (key, value) :: rest =>
      match key with
      | VStr k => mapToObject_from (assign obj k value) rest
      | _ =>
          Throw (Error ("Expected all keys to be string but got " ++ typeof key))
      end
  end.

Definition mapToObject (map : list (value * value))
  : result (list (string * value)) :=
  mapToObject_from [] map.

(** [try { ... } catch (err) { if (err.code === "ENOENT") return new Map();
    throw err; }]: only a file system error has a [code]. *)
Definition or_empty_if_ENOENT (body : result (list (value * value)))
  : result (list (value * value)) :=
  match body with
  | Ok m => Ok m
  | Throw err =>
      match err with
      | SystemError code => if code =? "ENOENT" then Ok [] else Throw err
      | _ => Throw err
      end
  end.

Definition loadJsonAsMap (d : disk) (filePath : string)
  : result (list (value * value)) :=
  or_empty_if_ENOENT
    (content <- readFile d filePath ;;
     parsed <- JSON_parse content ;;
     if negb (basicType parsed =? "object") then
       Throw (Error ("Expected object but got " ++ basicType parsed))
     else Ok (new_Map (Object_entries parsed))).

Definition tab : string := String (ascii_of_nat 9) "".

Definition saveMapAsJson (d : disk) (filePath : string)
    (map : list (value * value)) : disk * result unit :=
  match mapToObject map with
  | Throw e => (d, Throw e)
  | Ok obj => safeOutputFile d filePath (JSON_stringify_object obj tab)
  end.

(** [element.id]: an own property, [Object.prototype] has no [id]. *)
Definition id_of (element : value) : value :=
  match element with
  | VObj members =>
      match own members "id" with
      | Some v => v
      | None => VUndefined
      end
  | _ => VUndefined
  end.

Fixpoint index_by_id (map : list (value * value)) (elements : list value)
  : result (list (value * value)) :=
  match elements with
  | [] => Ok map
  | element :: rest =>
      if negb (basicType element =? "object") then
        Throw (Error "Expected all elements to be objects")
      else
        match id_of element with
        | VUndefined =>
            Throw (Error "Expected all elements to have an id property")
        | id => index_by_id (Map_set map id element) rest
        end
  end.

Definition elements_of (v : value) : list value :=
  match v with
  | VArr elems => elems
  | _ => []
  end.

Definition loadJsonArrayAsMap (d : disk) (filePath : string)
  : result (list (value * value)) :=
  or_empty_if_ENOENT
    (content <- readFile d filePath ;;
     parsed <- JSON_parse content ;;
     if negb (basicType parsed =? "array") then
       Throw (Error ("Expected array but got " ++ basicType parsed))
     else index_by_id [] (elements_of parsed)).

Definition saveMapAsJsonArray (d : disk) (filePath : string)
    (map : list (value * value)) : disk * result unit :=
  safeOutputFile d filePath (JSON_stringify_array (List.map snd map) tab).

(** *** Maps with string keys and JSON values *)

(** A map whose keys are all strings, by its entries. *)
Definition string_keyed (m : list (string * value)) : list (value * value) :=
  map (fun e => (VStr (fst e), snd e)) m.

(** The values JSON has a text for and reads back as they are: [null],
    booleans, finite numbers other than [-0], strings, and arrays and
    objects of such values. *)
#[warnings="-register-all"]
Inductive json_value : value -> Prop :=
| json_null : json_value VNull
| json_bool b : json_value (VBool b)
| json_number x :
    is_finite x = true -> (is_zero x = true -> x = 0%float) ->
    json_value (VNum x)
| json_string s : json_value (VStr s)
| json_array elems : Forall json_value elems -> json_value (VArr elems)
| json_object members :
    property_order members ->
    Forall (fun m => json_value (snd m)) members ->
    json_value (VObj members).

(** The number class of SameValueZero: the two zeros are one class, any
    other number, and NaN, is alone in its class. *)
Definition number_class (x : number) : spec_float :=
  match Prim2SF x with
  | S754_zero _ => S754_zero false
  | c => c
  end.

(** No two keys of the entries are the same value: the entries are those
    of a [Map]. *)
Fixpoint distinct_keys (m : list (value * value)) : bool :=
  match m with
  | [] => true
  | (k, _) :: m' =>
      forallb (fun e => negb (same_value_zero k (fst e))) m' && distinct_keys m'
  end.

(** A disk with no file and on which every write succeeds. *)
Definition blank_disk : disk :=
  {| file_at := fun _ => Unreadable "ENOENT"; refused := fun _ => None |}.
(** ** Properties of the JavaScript fragment *)

Section PropertyFacts.
Context {A : Type}.
Implicit Types (o : list (string * A)) (k : string) (v : A).

Lemma own_replace o k v k' :
  own (replace o k v) k' =
    if k =? k' then (if has_own o k then Some v else None) else own o k'.
Proof.
  unfold has_own.
  induction o as [|[k0 v0] o IH]; simpl.
  - now destruct (k =? k').
  - destruct (k0 =? k) eqn:E0; simpl.
    + apply String.eqb_eq in E0; subst k0.
      destruct (k =? k') eqn:E; reflexivity.
    + destruct (k0 =? k') eqn:E1.
      * apply String.eqb_eq in E1; subst k0.
        rewrite String.eqb_sym in E0. now rewrite E0.
      * exact IH.
Qed.

Lemma own_insert_index o i k v k' :
  own o k = None ->
  own (insert_index o i k v) k' = if k =? k' then Some v else own o k'.
Proof.
  induction o as [|[k0 v0] o IH]; simpl; intros Hk.
  - reflexivity.
  - destruct (k0 =? k) eqn:E0; [discriminate|].
    destruct (array_index k0) as [j|]; [destruct (j <? i)%N|]; simpl;
      try reflexivity.
    rewrite (IH Hk).
    destruct (k0 =? k') eqn:E1; [|reflexivity].
    apply String.eqb_eq in E1; subst k0.
    rewrite String.eqb_sym in E0. now rewrite E0.
Qed.

Lemma own_app o k v k' :
  own (o ++ [(k, v)]) k' =
    match own o k' with
    | Some x => Some x
    | None => if k =? k' then Some v else None
    end.
Proof.
  induction o as [|[k0 v0] o IH]; simpl.
  - reflexivity.
  - now destruct (k0 =? k').
Qed.

(** Reading after [define]: the defined key holds the new value and
    every other key is untouched. *)
Lemma own_define o k v k' :
  own (define o k v) k' = if k =? k' then Some v else own o k'.
Proof.
  unfold define.
  destruct (has_own o k) eqn:H.
  - rewrite own_replace, H. reflexivity.
  - assert (Hk : own o k = None).
    { unfold has_own in H. now destruct (own o k). }
    destruct (array_index k) as [i|].
    + now apply own_insert_index.
    + rewrite own_app.
      destruct (k =? k') eqn:E.
      * apply String.eqb_eq in E; subst k'. now rewrite Hk.
      * now destruct (own o k').
Qed.

Lemma own_In o k v : own o k = Some v -> In (k, v) o.
Proof.
  induction o as [|[k0 v0] o IH]; simpl; [discriminate|].
  destruct (k0 =? k) eqn:E.
  - apply String.eqb_eq in E; subst. intros [= ->]. now left.
  - intros H. right. now apply IH.
Qed.

Lemma In_own o k : In k (keys o) -> exists v, own o k = Some v.
Proof.
  induction o as [|[k0 v0] o IH]; simpl; [contradiction|].
  intros [->|H].
  - rewrite String.eqb_refl. now exists v0.
  - destruct (k0 =? k); [now exists v0|now apply IH].
Qed.
End PropertyFacts.

Section MapFacts.
Context {V : Type}.
Implicit Types (m : list (string * V)) (k : string) (v : V).

Lemma map_get_set m k v k' :
  map_get String.eqb (map_set String.eqb m k v) k' =
    if k =? k' then Some v else map_get String.eqb m k'.
Proof.
  induction m as [|[k0 v0] m IH]; simpl.
  - reflexivity.
  - destruct (k0 =? k) eqn:E0; simpl.
    + apply String.eqb_eq in E0; subst k0. now destruct (k =? k').
    + rewrite IH. destruct (k0 =? k') eqn:E1; [|reflexivity].
      apply String.eqb_eq in E1; subst k0.
      rewrite String.eqb_sym in E0. now rewrite E0.
Qed.

Lemma map_set_length m k v :
  length (map_set String.eqb m k v) =
    if map_has String.eqb m k then length m else S (length m).
Proof.
  unfold map_has.
  induction m as [|[k0 v0] m IH]; simpl.
  - reflexivity.
  - destruct (k0 =? k); simpl; [reflexivity|].
    rewrite IH. now destruct (map_get String.eqb m k).
Qed.

Lemma map_set_keys m k v :
  map fst (map_set String.eqb m k v) =
    if map_has String.eqb m k then map fst m else map fst m ++ [k].
Proof.
  unfold map_has.
  induction m as [|[k0 v0] m IH]; simpl.
  - reflexivity.
  - destruct (k0 =? k); simpl; [reflexivity|].
    rewrite IH. now destruct (map_get String.eqb m k).
Qed.

End MapFacts.

(** *** Numbers

    Facts about binary64 addition, read off the specification of the
    primitive operations ([Prim2SF]). *)

Section NumberFacts.
Implicit Types x c s : number.

Lemma SFcompare_finite_refl b m e :
  SFcompare (S754_finite b m e) (S754_finite b m e) = Some Eq.
Proof.
  simpl. rewrite Z.compare_refl, Pos.compare_cont_refl.
  now destruct b.
Qed.

(** The falsy numbers are the two zeros and NaN. *)
Lemma number_truthy_spec x :
  number_truthy x =
    match Prim2SF x with
    | S754_nan | S754_zero _ => false
    | _ => true
    end.
Proof.
  unfold number_truthy, is_zero, is_nan.
  rewrite !eqb_spec.
  replace (Prim2SF 0%float) with (S754_zero false) by reflexivity.
  destruct (Prim2SF x) as [b|b| |b m e]; try reflexivity.
  - now destruct b.
  - unfold SFeqb at 2. rewrite SFcompare_finite_refl.
    now destruct b.
Qed.

Lemma is_zero_spec x :
  is_zero x = true -> exists b, Prim2SF x = S754_zero b.
Proof.
  unfold is_zero. rewrite eqb_spec.
  replace (Prim2SF 0%float) with (S754_zero false) by reflexivity.
  destruct (Prim2SF x) as [b|b| |b m e]; try discriminate.
  - now exists b.
  - now destruct b.
  - now destruct b.
Qed.

Lemma is_zero_falsy x : is_zero x = true -> number_truthy x = false.
Proof. unfold number_truthy. now intros ->. Qed.

Lemma is_nan_spec x :
  is_nan x = match Prim2SF x with S754_nan => true | _ => false end.
Proof.
  unfold is_nan. rewrite eqb_spec.
  destruct (Prim2SF x) as [b|b| |b m e]; try reflexivity.
  - now destruct b.
  - unfold SFeqb. now rewrite SFcompare_finite_refl.
Qed.

(** [-c] is NaN only when [c] is. *)
Lemma is_nan_opp c : is_nan (- c)%float = is_nan c.
Proof.
  rewrite !is_nan_spec, opp_spec.
  now destruct (Prim2SF c).
Qed.

Lemma SFadd_opp b m e :
  SF64add (S754_finite b m e) (S754_finite (negb b) m e) = S754_zero false.
Proof.
  unfold SF64add, SFadd. rewrite Z.min_id.
  assert (H : forall z, (cond_Zopp b z + cond_Zopp (negb b) z = 0)%Z)
    by (intros z; destruct b; unfold cond_Zopp; simpl negb; lia).
  now rewrite H.
Qed.

(** [c + (-c)] is a zero, or NaN when [c] is infinite. *)
Lemma add_opp_falsy c : number_truthy (c + - c)%float = false.
Proof.
  rewrite number_truthy_spec, add_spec, opp_spec.
  destruct (Prim2SF c) as [b|b| |b m e]; simpl SFopp.
  - now destruct b.
  - now destruct b.
  - reflexivity.
  - now rewrite SFadd_opp.
Qed.

(** Starting from a zero, adding [c] and then [-c] ends on a zero or on
    NaN. *)
Lemma zero_add_opp_falsy s c :
  is_zero s = true -> number_truthy (s + c + - c)%float = false.
Proof.
  intros Hs. destruct (is_zero_spec s Hs) as [z Hz].
  rewrite number_truthy_spec, add_spec, add_spec, opp_spec, Hz.
  destruct (Prim2SF c) as [b|b| |b m e]; simpl SFopp.
  - now destruct z, b.
  - now destruct z, b.
  - now destruct z.
  - replace (SF64add (S754_zero z) (S754_finite b m e))
      with (S754_finite b m e) by now destruct z.
    now rewrite SFadd_opp.
Qed.
End NumberFacts.

(** *** Integer counts

    Binary64 holds every integer up to 2^53 in magnitude, and adds two
    of them without rounding when the sum is one of them too. *)

Section IntegerCounts.
Local Open Scope Z_scope.

Lemma digits_bounds m :
  2 ^ (Zpos (digits2_pos m) - 1) <= Zpos m < 2 ^ Zpos (digits2_pos m).
Proof.
  induction m as [m IH|m IH|]; cbn [digits2_pos].
  - rewrite Pos2Z.inj_succ, Z.pow_succ_r by lia.
    replace (Z.succ (Zpos (digits2_pos m)) - 1) with (Z.succ (Zpos (digits2_pos m) - 1)) by lia.
    rewrite Z.pow_succ_r by lia. lia.
  - rewrite Pos2Z.inj_succ, Z.pow_succ_r by lia.
    replace (Z.succ (Zpos (digits2_pos m)) - 1) with (Z.succ (Zpos (digits2_pos m) - 1)) by lia.
    rewrite Z.pow_succ_r by lia. lia.
  - simpl. lia.
Qed.

(** digits is determined by the bracket *)
Lemma digits_unique m d :
  2 ^ (d - 1) <= Zpos m < 2 ^ d -> 0 < d -> Zpos (digits2_pos m) = d.
Proof.
  intros [Hlo Hhi] Hd. destruct (digits_bounds m) as [Hlo' Hhi'].
  set (d' := Zpos (digits2_pos m)) in *.
  destruct (Z.lt_trichotomy d' d) as [H|[H|H]]; trivial; exfalso.
  - assert (2 ^ d' <= 2 ^ (d - 1)) by (apply Z.pow_le_mono_r; lia). lia.
  - assert (2 ^ d <= 2 ^ (d' - 1)) by (apply Z.pow_le_mono_r; lia). lia.
Qed.

Lemma iter_xO_Z m p : Zpos (Pos.iter xO m p) = Zpos m * 2 ^ Zpos p.
Proof.
  induction p as [|p IH] using Pos.peano_ind.
  - simpl. lia.
  - rewrite Pos.iter_succ, Pos2Z.inj_xO, IH, Pos2Z.inj_succ, Z.pow_succ_r by lia.
    lia.
Qed.

Lemma iter_pos_shr_1 p : forall m,
  SpecFloat.iter_pos shr_1 p (Build_shr_record (Zpos (Pos.iter xO m p)) false false) =
  Build_shr_record (Zpos m) false false.
Proof.
  induction p as [p IH|p IH|]; intros m; cbn [SpecFloat.iter_pos Pos.iter].
  - cbn [shr_1 orb]. now rewrite !IH.
  - now rewrite !IH.
  - reflexivity.
Qed.

Lemma fexp_canonical m e :
  bounded prec emax m e = true ->
  fexp prec emax (Zpos (digits2_pos m) + e) = e /\ e <= emax - prec.
Proof.
  unfold bounded, canonical_mantissa. intros H.
  apply andb_prop in H as [H1 H2].
  apply Z.eqb_eq in H1. apply Z.leb_le in H2. now split.
Qed.

Lemma binary_round_aux_canonical s m e :
  bounded prec emax m e = true ->
  binary_round_aux prec emax s (Zpos m) e loc_Exact = S754_finite s m e.
Proof.
  intros H. destruct (fexp_canonical m e H) as [Hf He].
  unfold binary_round_aux, shr_fexp. cbn [Zdigits2 shr_record_of_loc].
  rewrite Hf, Z.sub_diag. cbn [shr shr_m loc_of_shr_record shr_r shr_s round_nearest_even].
  cbn [Zdigits2 shr_record_of_loc]. rewrite Hf, Z.sub_diag. cbn [shr shr_m].
  apply Z.leb_le in He. now rewrite He.
Qed.

Lemma scaled_digits m e m' e' :
  -64 <= e -> -64 <= e' ->
  Zpos m * 2 ^ (e + 64) = Zpos m' * 2 ^ (e' + 64) ->
  Zpos (digits2_pos m) + e = Zpos (digits2_pos m') + e'.
Proof.
  intros He He' HV.
  destruct (digits_bounds m) as [Hlo Hhi], (digits_bounds m') as [Hlo' Hhi'].
  set (d := Zpos (digits2_pos m)) in *. set (d' := Zpos (digits2_pos m')) in *.
  assert (Hd : 0 < d) by (unfold d; lia). assert (Hd' : 0 < d') by (unfold d'; lia).
  assert (P : 0 < 2 ^ (e + 64)) by (apply Z.pow_pos_nonneg; lia).
  assert (P' : 0 < 2 ^ (e' + 64)) by (apply Z.pow_pos_nonneg; lia).
  assert (B1 : 2 ^ (d - 1 + (e + 64)) <= Zpos m * 2 ^ (e + 64) < 2 ^ (d + (e + 64))).
  { rewrite (Z.pow_add_r 2 d), (Z.pow_add_r 2 (d - 1)) by lia. split.
    - apply Z.mul_le_mono_nonneg_r; lia.
    - apply Z.mul_lt_mono_pos_r; lia. }
  assert (B2 : 2 ^ (d' - 1 + (e' + 64)) <= Zpos m' * 2 ^ (e' + 64) < 2 ^ (d' + (e' + 64))).
  { rewrite (Z.pow_add_r 2 d'), (Z.pow_add_r 2 (d' - 1)) by lia. split.
    - apply Z.mul_le_mono_nonneg_r; lia.
    - apply Z.mul_lt_mono_pos_r; lia. }
  rewrite <- HV in B2.
  destruct (Z.lt_trichotomy (d + e) (d' + e')) as [H|[H|H]]; trivial; exfalso.
  - assert (2 ^ (d + (e + 64)) <= 2 ^ (d' - 1 + (e' + 64))) by (apply Z.pow_le_mono_r; lia). lia.
  - assert (2 ^ (d' + (e' + 64)) <= 2 ^ (d - 1 + (e + 64))) by (apply Z.pow_le_mono_r; lia). lia.
Qed.

Lemma binary_round_value s m e m' e' :
  -64 <= e -> -64 <= e' ->
  Zpos m * 2 ^ (e + 64) = Zpos m' * 2 ^ (e' + 64) ->
  bounded prec emax m' e' = true ->
  binary_round prec emax s m e = S754_finite s m' e'.
Proof.
  intros He He' HV Hb.
  pose proof (scaled_digits m e m' e' He He' HV) as Hd.
  destruct (fexp_canonical m' e' Hb) as [Hf Hle].
  unfold binary_round. rewrite Hd, Hf. unfold shl_align.
  destruct (e' - e) as [|p|p] eqn:Hp.
  - assert (e' = e) by lia. subst e'.
    assert (m' = m).
    { assert (P : 0 < 2 ^ (e + 64)) by (apply Z.pow_pos_nonneg; lia).
      apply Z.mul_cancel_r in HV; [|lia]. now injection HV. }
    subst m'. now apply binary_round_aux_canonical.
  - assert (Hm : m = Pos.iter xO m' p).
    { apply Pos2Z.inj. rewrite iter_xO_Z.
      assert (P : 0 < 2 ^ (e + 64)) by (apply Z.pow_pos_nonneg; lia).
      replace (e' + 64) with (Zpos p + (e + 64)) in HV by lia.
      rewrite (Z.pow_add_r 2 (Zpos p)), Z.mul_assoc in HV by lia.
      apply Z.mul_cancel_r in HV; [|lia]. exact HV. }
    unfold binary_round_aux at 1. unfold shr_fexp at 1.
    cbn [Zdigits2 shr_record_of_loc]. rewrite Hd, Hf, Hp. cbn [shr].
    rewrite Hm, iter_pos_shr_1.
    cbn [shr_m loc_of_shr_record shr_r shr_s round_nearest_even].
    replace (e + Zpos p) with e' by lia.
    unfold shr_fexp. cbn [Zdigits2 shr_record_of_loc].
    rewrite Hf, Z.sub_diag. cbn [shr shr_m].
    apply Z.leb_le in Hle. now rewrite Hle.
  - assert (Hm : m' = Pos.iter xO m p).
    { apply Pos2Z.inj. rewrite iter_xO_Z.
      assert (P : 0 < 2 ^ (e' + 64)) by (apply Z.pow_pos_nonneg; lia).
      replace (e + 64) with (Zpos p + (e' + 64)) in HV by lia.
      rewrite (Z.pow_add_r 2 (Zpos p)), Z.mul_assoc in HV by lia.
      apply Z.mul_cancel_r in HV; [|lia]. now symmetry. }
    rewrite <- Hm. now apply binary_round_aux_canonical.
Qed.

Lemma fexp_normal x : -1021 <= x -> fexp prec emax x = x - 53.
Proof. intros H. unfold fexp, emin, prec, emax. lia. Qed.

Lemma canonical_integer p :
  Zpos p <= 2 ^ 53 ->
  exists m e, -64 <= e /\ bounded prec emax m e = true /\
    Zpos m * 2 ^ (e + 64) = Zpos p * 2 ^ 64.
Proof.
  intros Hp. destruct (digits_bounds p) as [Hlo Hhi].
  set (d := Zpos (digits2_pos p)) in *.
  assert (Hd : 0 < d) by (unfold d; lia).
  assert (Hd54 : d <= 54).
  { destruct (Z_le_gt_dec d 54) as [H|H]; trivial. exfalso.
    assert (2 ^ 54 <= 2 ^ (d - 1)) by (apply Z.pow_le_mono_r; lia).
    assert (2 ^ 53 < 2 ^ 54) by (apply Z.pow_lt_mono_r; lia). lia. }
  destruct (Z.eq_dec d 54) as [H54|H54]; [|destruct (Z.eq_dec d 53) as [H53|H53]].
  - exists 4503599627370496%positive, 1. rewrite H54 in Hlo.
    replace (54 - 1) with 53 in Hlo by lia.
    assert (E : Zpos p = 2 ^ 53) by lia. rewrite E.
    split; [lia|split; [reflexivity|]].
    rewrite <- Z.pow_add_r by lia. reflexivity.
  - exists p, 0. split; [lia|split; [|reflexivity]].
    unfold bounded, canonical_mantissa. fold d. rewrite H53.
    reflexivity.
  - set (k := 53 - d). assert (Hk : 0 < k) by (unfold k; lia).
    exists (Pos.iter xO p (Z.to_pos k)), (- k).
    assert (Ek : Zpos (Z.to_pos k) = k) by (apply Z2Pos.id; lia).
    assert (EV : Zpos (Pos.iter xO p (Z.to_pos k)) = Zpos p * 2 ^ k).
    { now rewrite iter_xO_Z, Ek. }
    split; [|split].
    + unfold k. lia.
    + unfold bounded, canonical_mantissa.
      assert (ED : Zpos (digits2_pos (Pos.iter xO p (Z.to_pos k))) = 53).
      { apply digits_unique; [|lia]. rewrite EV.
        assert (P : 0 < 2 ^ k) by (apply Z.pow_pos_nonneg; lia).
        assert (B : 2 ^ (d - 1) * 2 ^ k <= Zpos p * 2 ^ k < 2 ^ d * 2 ^ k).
        { split.
          - apply Z.mul_le_mono_nonneg_r; lia.
          - apply Z.mul_lt_mono_pos_r; lia. }
        rewrite <- !Z.pow_add_r in B by lia.
        replace (d - 1 + k) with (53 - 1) in B by (unfold k; lia).
        replace (d + k) with 53 in B by (unfold k; lia). exact B. }
      rewrite ED, fexp_normal by (unfold k; lia).
      apply andb_true_intro. split.
      * apply Z.eqb_eq. unfold k. lia.
      * apply Z.leb_le. unfold emax, prec, k. lia.
    + rewrite EV, <- Z.mul_assoc, <- Z.pow_add_r by (unfold k; lia).
      f_equal. f_equal. lia.
Qed.

Lemma binary_round_integer p :
  Zpos p <= 2 ^ 53 ->
  exists m e, -64 <= e /\ bounded prec emax m e = true /\
    Zpos m * 2 ^ (e + 64) = Zpos p * 2 ^ 64 /\
    forall s, binary_round prec emax s p 0 = S754_finite s m e.
Proof.
  intros Hp. destruct (canonical_integer p Hp) as (m & e & He & Hb & HV).
  exists m, e. split; [|split; [|split]]; trivial.
  intros s. apply binary_round_value; trivial; lia.
Qed.

(** The float of an integer, as its sign and canonical mantissa. *)
Lemma binary_normalize_integer z :
  exact_integer z -> z <> 0 ->
  exists m e, -64 <= e /\ bounded prec emax m e = true /\
    cond_Zopp (z <? 0) (Zpos m) * 2 ^ (e + 64) = z * 2 ^ 64 /\
    binary_normalize prec emax z 0 false = S754_finite (z <? 0) m e.
Proof.
  intros [Hl Hh] Hz. destruct z as [|p|p]; [easy| |].
  - destruct (binary_round_integer p Hh) as (m & e & He & Hb & HV & Hr).
    exists m, e. split; [|split; [|split]]; trivial. apply Hr.
  - assert (Hp : Zpos p <= 2 ^ 53) by lia.
    destruct (binary_round_integer p Hp) as (m & e & He & Hb & HV & Hr).
    exists m, e. split; [|split; [|split]]; trivial; [|apply Hr].
    cbn [Z.ltb Z.compare cond_Zopp]. lia.
Qed.

Lemma valid_binary_integer z :
  exact_integer z ->
  valid_binary (binary_normalize prec emax z 0 false) = true.
Proof.
  intros H. destruct (Z.eq_dec z 0) as [->|Hz]; [reflexivity|].
  destruct (binary_normalize_integer z H Hz) as (m & e & _ & Hb & _ & ->).
  exact Hb.
Qed.

Lemma Prim2SF_of_Z z :
  exact_integer z -> Prim2SF (of_Z z) = binary_normalize prec emax z 0 false.
Proof. intros H. apply Prim2SF_SF2Prim, valid_binary_integer, H. Qed.

Lemma shl_align_value m e ez :
  -64 <= ez -> ez <= e ->
  Zpos (fst (shl_align m e ez)) * 2 ^ (ez + 64) = Zpos m * 2 ^ (e + 64).
Proof.
  intros H1 H2. unfold shl_align. destruct (ez - e) as [|p|p] eqn:Hp.
  - cbn [fst]. f_equal. f_equal. lia.
  - lia.
  - cbn [fst]. rewrite iter_xO_Z, <- Z.mul_assoc, <- Z.pow_add_r by lia.
    f_equal. f_equal. lia.
Qed.

Lemma cond_Zopp_mul s x y : cond_Zopp s x * y = cond_Zopp s (x * y).
Proof. destruct s; cbn [cond_Zopp]; lia. Qed.

Lemma SFadd_integer a b :
  exact_integer a -> exact_integer b -> exact_integer (a + b) ->
  SFadd prec emax (binary_normalize prec emax a 0 false)
                  (binary_normalize prec emax b 0 false) =
  binary_normalize prec emax (a + b) 0 false.
Proof.
  intros Ha Hb Hab.
  destruct (Z.eq_dec a 0) as [->|Ha0].
  { cbn [Z.add]. change (binary_normalize prec emax 0 0 false) with (S754_zero false).
    destruct (Z.eq_dec b 0) as [->|Hb0]; [reflexivity|].
    destruct (binary_normalize_integer b Hb Hb0) as (m & e & _ & _ & _ & ->).
    reflexivity. }
  destruct (binary_normalize_integer a Ha Ha0) as (ma & ea & Hea & _ & HVa & Ea).
  destruct (Z.eq_dec b 0) as [->|Hb0].
  { rewrite Z.add_0_r, Ea. reflexivity. }
  destruct (binary_normalize_integer b Hb Hb0) as (mb & eb & Heb & _ & HVb & Eb).
  rewrite Ea, Eb. cbn [SFadd].
  set (ez := Z.min ea eb).
  assert (Hez : -64 <= ez) by (unfold ez; lia).
  pose proof (shl_align_value ma ea ez Hez ltac:(unfold ez; lia)) as Sa.
  pose proof (shl_align_value mb eb ez Hez ltac:(unfold ez; lia)) as Sb.
  set (xa := fst (shl_align ma ea ez)) in *.
  set (xb := fst (shl_align mb eb ez)) in *.
  set (total := cond_Zopp (a <? 0) (Zpos xa) + cond_Zopp (b <? 0) (Zpos xb)).
  assert (P : 0 < 2 ^ (ez + 64)) by (apply Z.pow_pos_nonneg; lia).
  assert (HS : total * 2 ^ (ez + 64) = (a + b) * 2 ^ 64).
  { unfold total. rewrite Z.mul_add_distr_r, !cond_Zopp_mul, Sa, Sb.
    rewrite <- !cond_Zopp_mul, HVa, HVb. lia. }
  destruct (Z.eq_dec (a + b) 0) as [E0|Hab0].
  { rewrite E0 in *. assert (total = 0) by nia. now rewrite H. }
  destruct (binary_normalize_integer (a + b) Hab Hab0)
    as (m & e & He & Hbd & HV & ->).
  assert (P64 : 0 < 2 ^ 64) by (apply Z.pow_pos_nonneg; lia).
  destruct total as [|s|s] eqn:Etotal.
  - exfalso. nia.
  - cbn [binary_normalize].
    assert (Hpos : 0 < a + b) by nia.
    assert (Hs : (a + b <? 0) = false) by (apply Z.ltb_ge; lia).
    rewrite Hs in *. cbn [cond_Zopp] in HV.
    apply binary_round_value; trivial. now rewrite HS, HV.
  - cbn [binary_normalize].
    assert (Hneg : a + b < 0) by nia.
    assert (Hs : (a + b <? 0) = true) by (apply Z.ltb_lt; lia).
    rewrite Hs in *. cbn [cond_Zopp] in HV.
    apply binary_round_value; trivial. lia.
Qed.

Lemma of_Z_add a b :
  exact_integer a -> exact_integer b -> exact_integer (a + b) ->
  (of_Z a + of_Z b)%float = of_Z (a + b).
Proof.
  intros Ha Hb Hab. apply Prim2SF_inj.
  rewrite add_spec, !Prim2SF_of_Z by trivial.
  now apply SFadd_integer.
Qed.

Lemma of_Z_opp c :
  exact_integer c -> c <> 0 -> (- of_Z c)%float = of_Z (- c).
Proof.
  intros Hc Hc0. apply Prim2SF_inj.
  assert (Hc' : exact_integer (- c)) by (unfold exact_integer in *; lia).
  rewrite opp_spec, !Prim2SF_of_Z by trivial.
  destruct Hc as [Hl Hh]. destruct c as [|p|p]; [easy| |].
  - destruct (binary_round_integer p Hh) as (m & e & _ & _ & _ & Hr).
    cbn [Z.opp binary_normalize]. now rewrite !Hr.
  - assert (Hp : Zpos p <= 2 ^ 53) by lia.
    destruct (binary_round_integer p Hp) as (m & e & _ & _ & _ & Hr).
    cbn [Z.opp binary_normalize]. now rewrite !Hr.
Qed.

Lemma of_Z_add_zero s :
  exact_integer s ->
  (of_Z s + 0)%float = of_Z s /\ (of_Z s + - 0)%float = of_Z s.
Proof.
  intros Hs. split; apply Prim2SF_inj;
    rewrite add_spec, ?opp_spec, Prim2SF_of_Z by trivial.
  - destruct (Z.eq_dec s 0) as [->|Hs0]; [reflexivity|].
    destruct (binary_normalize_integer s Hs Hs0) as (m & e & _ & _ & _ & ->).
    reflexivity.
  - destruct (Z.eq_dec s 0) as [->|Hs0]; [reflexivity|].
    destruct (binary_normalize_integer s Hs Hs0) as (m & e & _ & _ & _ & ->).
    reflexivity.
Qed.

Lemma of_Z_add_opp s c :
  exact_integer s -> exact_integer c -> exact_integer (s + c) ->
  (of_Z s + of_Z c + - of_Z c)%float = of_Z s.
Proof.
  intros Hs Hc Hsc. destruct (Z.eq_dec c 0) as [->|Hc0].
  - change (of_Z 0) with 0%float.
    destruct (of_Z_add_zero s Hs) as [E1 E2]. now rewrite E1, E2.
  - assert (Hc' : exact_integer (- c)) by (unfold exact_integer in *; lia).
    rewrite of_Z_add, of_Z_opp, of_Z_add by
      (trivial; replace (s + c + - c) with s by lia; trivial).
    f_equal. lia.
Qed.

(** [of_Z] on the integers the examples use. *)
Lemma of_Z_literals :
  of_Z 0 = 0%float /\ of_Z 5 = 5%float /\ of_Z (-3) = (-3)%float /\
  of_Z (2 ^ 53) = 9007199254740992%float.
Proof. repeat split; reflexivity. Qed.
End IntegerCounts.

(** ** Properties of the ledger *)

Section LedgerFacts.
Implicit Types (db : ItemDatabase) (n q : string) (c x : number).

Lemma inherited_proto q : inherited q = false -> (q =? "__proto__") = false.
Proof.
  intros H. destruct (q =? "__proto__") eqn:E; [|reflexivity].
  apply String.eqb_eq in E; subst q. discriminate H.
Qed.

Lemma checkCount_Ok count c :
  checkCount count = Ok c -> count = Num c /\ is_nan c = false.
Proof.
  destruct count as [[]| |]; try discriminate. simpl.
  destruct (is_nan x) eqn:E; [discriminate|].
  now intros [= ->].
Qed.

(** What [getItemCount] answers, by what is stored. *)
Lemma getItemCount_stored db n q s :
  stored db n q = Some s ->
  getItemCount db (VStr n) (VStr q) = Ok (if slot_truthy s then s else Num 0%float).
Proof.
  unfold stored, getItemCount; simpl.
  destruct (map_get String.eqb (_items db) n) as [r|]; [|discriminate].
  intros H. unfold get. rewrite H. now destruct (slot_truthy s).
Qed.

Lemma getItemCount_absent db n q :
  stored db n q = None ->
  map_get String.eqb (_items db) n = None \/ inherited q = false ->
  getItemCount db (VStr n) (VStr q) = Ok (Num 0%float).
Proof.
  unfold stored, getItemCount; simpl.
  destruct (map_get String.eqb (_items db) n) as [r|]; [|reflexivity].
  intros H [?|Hq]; [discriminate|].
  unfold get. now rewrite H, Hq.
Qed.

(** What [addItem] stores for a valid count. *)
Lemma addItem_stored db n q c s :
  is_nan c = false ->
  count_of db n q = Some s ->
  exists db',
    addItem db (VStr n) (Num c) (VStr q) = Ok db' /\
    exists t, stored db' n q = Some (Num t) /\ count_of db' n q = Some t /\
      (t = (s + c)%float \/
       map_get String.eqb (_items db) n = None /\ t = c).
Proof.
  intros Hc. unfold count_of, addItem, stored; simpl. rewrite Hc; simpl.
  destruct (map_get String.eqb (_items db) n) as [r|] eqn:Hn.
  - unfold get, assign, has_own.
    destruct (own r q) as [[[]| |]|] eqn:Hq; try discriminate.
    + intros [= ->]. eexists; split; [reflexivity|]. simpl.
      rewrite map_get_set, String.eqb_refl, own_define, String.eqb_refl.
      eexists; repeat split. now left.
    + destruct (inherited q) eqn:Hi; [discriminate|].
      intros [= <-]. rewrite (inherited_proto q Hi).
      eexists; split; [reflexivity|]. simpl.
      rewrite map_get_set, String.eqb_refl, own_define, String.eqb_refl.
      eexists; repeat split. now left.
  - intros [= <-]. eexists; split; [reflexivity|]. simpl.
    rewrite map_get_set, String.eqb_refl. simpl. rewrite String.eqb_refl.
    eexists; repeat split. now right.
Qed.

(** [addItem] and [removeItem] keep every entry of the map and only
    ever add one. *)
Lemma addItem_names db name count quality db' :
  addItem db name count quality = Ok db' ->
  exists n r, _items db' = map_set String.eqb (_items db) n r.
Proof.
  unfold addItem.
  destruct (checkName name) as [n|]; [|discriminate].
  destruct (checkCount count) as [c|]; [|discriminate].
  destruct (checkQuality quality) as [q|]; [|discriminate]. simpl.
  destruct (map_get String.eqb (_items db) n); intros [= <-]; simpl; eauto.
Qed.

Lemma removeItem_names db name count quality db' :
  removeItem db name count quality = Ok db' ->
  exists n r, _items db' = map_set String.eqb (_items db) n r.
Proof.
  unfold removeItem.
  destruct (checkCount count) as [c|]; [|discriminate]. simpl.
  apply addItem_names.
Qed.

Lemma after_items db call :
  after db call = db \/
  exists n r, _items (after db call) = map_set String.eqb (_items db) n r.
Proof.
  destruct call as [| name count quality | name count quality | |]; simpl;
    try (now left).
  - destruct (addItem db name count quality) eqn:E; [|now left].
    right. eapply addItem_names; eauto.
  - destruct (removeItem db name count quality) eqn:E; [|now left].
    right. eapply removeItem_names; eauto.
Qed.
End LedgerFacts.

Section NamesAndRestore.
Implicit Types (db : ItemDatabase) (n q : string) (c x : number).

Lemma getItemCount_count_of db n q s :
  count_of db n q = Some s ->
  getItemCount db (VStr n) (VStr q) =
    Ok (if number_truthy s then Num s else Num 0%float).
Proof.
  intros H.
  destruct (stored db n q) as [sl|] eqn:Hs.
  - rewrite (getItemCount_stored db n q sl Hs).
    unfold count_of in H. unfold stored in Hs.
    destruct (map_get String.eqb (_items db) n) as [r|]; [|discriminate].
    rewrite Hs in H. destruct sl as [[]| |]; try discriminate.
    now injection H as ->.
  - rewrite getItemCount_absent; trivial.
    + unfold count_of in H. unfold stored in Hs.
      destruct (map_get String.eqb (_items db) n) as [r|].
      * rewrite Hs in H. destruct (inherited q); [discriminate|].
        now injection H as <-.
      * now injection H as <-.
    + unfold count_of in H. unfold stored in Hs.
      destruct (map_get String.eqb (_items db) n) as [r|]; [|now left].
      rewrite Hs in H. right. now destruct (inherited q).
Qed.

Lemma resident_map_set (m : list (string * ItemCountWithQuality)) n r name :
  map_has String.eqb m name = true ->
  map_has String.eqb (map_set String.eqb m n r) name = true.
Proof.
  unfold map_has. rewrite map_get_set.
  now destruct (n =? name).
Qed.

Lemma after_resident db call name :
  resident db name = true -> resident (after db call) name = true.
Proof.
  unfold resident.
  destruct (after_items db call) as [->|(n & r & ->)]; trivial.
  apply resident_map_set.
Qed.

Lemma after_size db call : size db <= size (after db call).
Proof.
  unfold size.
  destruct (after_items db call) as [->|(n & r & ->)]; trivial.
  rewrite map_set_length.
  destruct (map_has String.eqb (_items db) n); lia.
Qed.

Lemma map_set_fresh {V} (m : list (string * V)) k v :
  map_has String.eqb m k = false -> map_set String.eqb m k v = m ++ [(k, v)].
Proof.
  unfold map_has.
  induction m as [|[k0 v0] m IH]; simpl; [reflexivity|].
  destruct (k0 =? k); [discriminate|].
  intros H. now rewrite IH.
Qed.

Lemma map_has_app {V} (m : list (string * V)) k v k' :
  map_has String.eqb (m ++ [(k, v)]) k' =
    map_has String.eqb m k' || (k =? k').
Proof.
  unfold map_has.
  induction m as [|[k0 v0] m IH]; simpl.
  - now destruct (k =? k').
  - destruct (k0 =? k'); [reflexivity|exact IH].
Qed.

Lemma map_get_NoDup {V} (m : list (string * V)) k v :
  NoDup (map fst m) -> In (k, v) m -> map_get String.eqb m k = Some v.
Proof.
  induction m as [|[k0 v0] m IH]; simpl; [contradiction|].
  intros Hnd [[= -> ->]|Hin].
  - now rewrite String.eqb_refl.
  - inversion Hnd as [|? ? Hnot Hnd']; subst.
    destruct (k0 =? k) eqn:E; [|now apply IH].
    apply String.eqb_eq in E; subst k0.
    exfalso. apply Hnot. now apply (in_map fst) in Hin.
Qed.

Lemma restore_migrate items front back name x :
  restore items (front ++ (name, Bare x) :: back) =
  restore items (front ++ (name, Qualities [("normal", Num x)]) :: back).
Proof.
  revert items.
  induction front as [|[n e] front IH]; intros items; simpl.
  - reflexivity.
  - destruct (check_counts (map snd (migrate e))); simpl; [apply IH|reflexivity].
Qed.

Lemma restore_fresh entries : forall items items',
  restore items entries = Ok items' ->
  NoDup (map fst entries) ->
  (forall n, In n (map fst entries) -> map_has String.eqb items n = false) ->
  items' = items ++ map (fun e => (fst e, migrate (snd e))) entries.
Proof.
  induction entries as [|[n e] entries IH]; simpl; intros items items' H Hnd Hf.
  - injection H as <-. now rewrite app_nil_r.
  - destruct (check_counts (map snd (migrate e))); [|discriminate].
    simpl in H. inversion Hnd as [|? ? Hnot Hnd']; subst.
    rewrite map_set_fresh in H by (apply Hf; now left).
    apply IH in H; trivial.
    + rewrite H, <- app_assoc. reflexivity.
    + intros n' Hn'. rewrite map_has_app, Hf by now right.
      simpl. destruct (n =? n') eqn:E; [|reflexivity].
      apply String.eqb_eq in E; subst n'. contradiction.
Qed.
End NamesAndRestore.

(** ** Properties of [serialize] *)

Section SerializeFacts.
Implicit Types (obj : snapshot) (qualities : ItemCountWithQuality).

Lemma own_assign qualities quality s q :
  own (assign qualities quality s) q = own qualities q \/
  quality = q /\ own (assign qualities quality s) q = Some s.
Proof.
  unfold assign.
  destruct (has_own qualities quality);
    [|destruct (quality =? "__proto__"); [now left|]];
    rewrite own_define;
    (destruct (quality =? q) eqn:E;
     [apply String.eqb_eq in E; now right|now left]).
Qed.

Lemma serialize_quality_from_ledger items name qualities obj quality :
  In (name, qualities) items ->
  In quality (keys qualities) ->
  from_ledger items obj ->
  from_ledger items (serialize_quality name qualities obj quality).
Proof.
  intros Hin Hq Hinv. unfold serialize_quality.
  destruct (In_own qualities quality Hq) as [s0 Hs0].
  unfold get. rewrite Hs0.
  destruct (differs_from_zero s0) eqn:Hd; [|exact Hinv].
  set (obj1 := if has_own obj name || inherited name then obj
               else define obj name []).
  assert (Hinv1 : from_ledger items obj1).
  { subst obj1. destruct (has_own obj name || inherited name); [exact Hinv|].
    intros name' rec. rewrite own_define.
    destruct (name =? name') eqn:E; [|apply Hinv].
    apply String.eqb_eq in E; subst name'. intros [= <-]. split.
    - now exists qualities, quality, s0.
    - discriminate. }
  destruct (own obj1 name) as [target|] eqn:Ht; [|exact Hinv1].
  intros name' rec. rewrite own_define.
  destruct (name =? name') eqn:E; [|apply Hinv1].
  apply String.eqb_eq in E; subst name'. intros [= <-]. split.
  - now exists qualities, quality, s0.
  - intros q s Hs.
    destruct (own_assign target quality s0 q) as [H|[-> H]]; rewrite H in Hs.
    + now apply (Hinv1 name target Ht).
    + injection Hs as <-. split; [exact Hd|]. now exists qualities.
Qed.

Lemma serialize_item_from_ledger items name qualities obj :
  In (name, qualities) items ->
  from_ledger items obj ->
  from_ledger items (serialize_item obj (name, qualities)).
Proof.
  intros Hin. unfold serialize_item.
  assert (H : forall l, incl l (keys qualities) -> forall obj,
             from_ledger items obj ->
             from_ledger items
               (fold_left (serialize_quality name qualities) l obj)).
  { induction l as [|quality l IH]; intros Hl obj' Hinv; simpl; trivial.
    apply IH.
    - intros k Hk. apply Hl. now right.
    - apply serialize_quality_from_ledger; trivial. apply Hl. now left. }
  apply H, incl_refl.
Qed.

Lemma serialize_from_ledger db : from_ledger (_items db) (serialize db).
Proof.
  unfold serialize.
  assert (H : forall todo, incl todo (_items db) -> forall obj,
             from_ledger (_items db) obj ->
             from_ledger (_items db) (fold_left serialize_item todo obj)).
  { induction todo as [|[name qualities] todo IH]; intros Hl obj Hinv;
      simpl; trivial.
    apply IH.
    - intros k Hk. apply Hl. now right.
    - apply serialize_item_from_ledger; trivial. apply Hl. now left. }
  apply H; [apply incl_refl|].
  intros name rec. discriminate.
Qed.

(** A map keeps one entry per name, so does every ledger a client can
    build. *)
Lemma map_set_NoDup {V} (m : list (string * V)) k v :
  NoDup (map fst m) -> NoDup (map fst (map_set String.eqb m k v)).
Proof.
  intros H. rewrite map_set_keys.
  destruct (map_has String.eqb m k) eqn:E; trivial.
  apply NoDup_app; trivial.
  - repeat constructor. intros [].
  - intros x Hx [Hk|[]]. subst x.
    apply In_own in Hx. destruct Hx as [v' Hx].
    unfold map_has in E.
    change (own m k) with (map_get String.eqb m k) in Hx.
    now rewrite Hx in E.
Qed.

Lemma after_NoDup db call :
  NoDup (names db) -> NoDup (names (after db call)).
Proof.
  unfold names.
  destruct (after_items db call) as [->|(n & r & ->)]; trivial.
  apply map_set_NoDup.
Qed.

Lemma restore_NoDup entries : forall items items',
  restore items entries = Ok items' ->
  NoDup (map fst items) -> NoDup (map fst items').
Proof.
  induction entries as [|[n e] entries IH]; simpl; intros items items' H Hnd.
  - now injection H as <-.
  - destruct (check_counts (map snd (migrate e))); [|discriminate].
    simpl in H. apply IH in H; trivial. now apply map_set_NoDup.
Qed.

Lemma constructor_NoDup serialized db :
  constructor serialized = Ok db -> NoDup (names db).
Proof.
  destruct serialized as [entries|]; simpl.
  - destruct (restore [] entries) as [items|] eqn:Hr; [|discriminate].
    intros [= <-]. apply restore_NoDup in Hr; trivial. constructor.
  - intros [= <-]. constructor.
Qed.
Lemma reachable_NoDup serialized calls : forall db,
  constructor serialized = Ok db -> NoDup (names (fold_left after calls db)).
Proof.
  intros db H. apply constructor_NoDup in H. revert db H.
  induction calls as [|call calls IH]; intros db H; simpl; trivial.
  apply IH. now apply after_NoDup.
Qed.

(** What [serialize] leaves out. *)
Lemma serialize_omissions db :
  NoDup (names db) ->
  (forall name q s rec,
     stored db name q = Some s -> differs_from_zero s = false ->
     own (serialize db) name = Some rec -> own rec q = None) /\
  (forall name qualities,
     map_get String.eqb (_items db) name = Some qualities ->
     (forall q s, own qualities q = Some s -> differs_from_zero s = false) ->
     own (serialize db) name = None).
Proof.
  intros Hnd. pose proof (serialize_from_ledger db) as Hinv. split.
  - intros name q s rec Hs Hz Hrec.
    destruct (own rec q) as [s'|] eqn:Hq; [|reflexivity].
    destruct (proj2 (Hinv name rec Hrec) q s' Hq) as (Hd & qualities & Hin & Hown).
    apply (map_get_NoDup _ _ _ Hnd) in Hin.
    unfold stored in Hs. rewrite Hin, Hown in Hs. injection Hs as Hs. subst s'.
    now rewrite Hz in Hd.
  - intros name qualities Hget Hall.
    destruct (own (serialize db) name) as [rec|] eqn:Hrec; [|reflexivity].
    destruct (proj1 (Hinv name rec Hrec)) as (qualities' & q & s & Hin & Hown & Hd).
    apply (map_get_NoDup _ _ _ Hnd) in Hin.
    rewrite Hin in Hget. injection Hget as ->.
    now rewrite (Hall q s Hown) in Hd.
Qed.
End SerializeFacts.

(** ** Where [serialize] returns *)

Section SerializeOutcome.

Lemma serialize_quality_outcome_plain name qualities obj quality :
  inherited name = false ->
  serialize_quality_outcome name qualities (Returns obj) quality =
    Returns (serialize_quality name qualities obj quality).
Proof.
  intros Hi. unfold serialize_quality_outcome, serialize_quality.
  rewrite Hi, orb_true_r.
  now destruct (differs_from_zero (get qualities quality)).
Qed.

Lemma serialize_item_outcome_plain name qualities : forall l obj,
  inherited name = false ->
  fold_left (serialize_quality_outcome name qualities) l (Returns obj) =
    Returns (fold_left (serialize_quality name qualities) l obj).
Proof.
  induction l as [|q l IH]; intros obj Hi; cbn [fold_left]; [reflexivity|].
  rewrite serialize_quality_outcome_plain by trivial. now apply IH.
Qed.

(** With no item named as a member of [Object.prototype], the call
    returns the object [serialize] builds. *)
Lemma serialize_outcome_returns (db : ItemDatabase) :
  Forall (fun n => inherited n = false) (names db) ->
  serialize_outcome db = Returns (serialize db).
Proof.
  unfold serialize_outcome, serialize, names.
  assert (H : forall items (obj : snapshot),
            Forall (fun n => inherited n = false) (map fst items) ->
            fold_left
              (fun st item =>
                 fold_left (serialize_quality_outcome (fst item) (snd item))
                   (keys (snd item)) st) items (Returns obj) =
            Returns (fold_left serialize_item items obj)).
  { induction items as [|[name qualities] items IH]; intros obj H;
      cbn [fold_left map fst snd].
    - reflexivity.
    - inversion H as [|? ? Hi Hrest]; subst.
      rewrite serialize_item_outcome_plain by trivial.
      unfold serialize_item at 2. now apply IH. }
  apply H.
Qed.
End SerializeOutcome.

(** ** Properties of maps with keys of any type *)

Section SameValueZero.
Implicit Types x y z : number.

Lemma SFeqb_finite b1 m1 e1 b2 m2 e2 :
  SFeqb (S754_finite b1 m1 e1) (S754_finite b2 m2 e2) = true <->
  S754_finite b1 m1 e1 = S754_finite b2 m2 e2.
Proof.
  split.
  - unfold SFeqb, SFcompare.
    change (Pos.compare_cont Eq m1 m2) with (m1 ?= m2)%positive.
    destruct b1, b2; try discriminate;
      destruct (Z.compare_spec e1 e2); try discriminate;
      destruct (Pos.compare_spec m1 m2); try discriminate;
      intros _; now subst.
  - intros [= -> -> ->]. unfold SFeqb.
    now rewrite SFcompare_finite_refl.
Qed.

Lemma same_number_spec x y :
  same_number x y = true <-> number_class x = number_class y.
Proof.
  unfold same_number, number_class.
  rewrite eqb_spec, !is_nan_spec.
  destruct (Prim2SF x) as [b1|b1| |b1 m1 e1] eqn:Hx;
    destruct (Prim2SF y) as [b2|b2| |b2 m2 e2] eqn:Hy;
    try (rewrite orb_false_r; apply SFeqb_finite);
    try destruct b1; try destruct b2; cbn;
    split; intros H; try discriminate H; reflexivity.
Qed.

Lemma same_number_class x x' y :
  number_class x = number_class x' -> same_number x y = same_number x' y.
Proof.
  intros H.
  destruct (same_number x y) eqn:E1, (same_number x' y) eqn:E2; trivial.
  - apply same_number_spec in E1. rewrite H in E1.
    apply same_number_spec in E1. congruence.
  - apply same_number_spec in E2. rewrite <- H in E2.
    apply same_number_spec in E2. congruence.
Qed.

Lemma same_value_zero_trans a b c :
  same_value_zero a b = true -> same_value_zero a c = same_value_zero b c.
Proof.
  destruct a, b; simpl; try discriminate; trivial.
  - intros H. apply Bool.eqb_prop in H. now subst.
  - intros H. destruct c; trivial.
    apply same_number_class. now apply same_number_spec.
  - intros H. apply String.eqb_eq in H. now subst.
Qed.

Lemma same_value_zero_sym a b :
  same_value_zero a b = same_value_zero b a.
Proof.
  destruct a, b; simpl; trivial.
  - now destruct b, b0.
  - destruct (same_number x x0) eqn:E1, (same_number x0 x) eqn:E2; trivial.
    + apply same_number_spec in E1. symmetry in E1.
      apply same_number_spec in E1. congruence.
    + apply same_number_spec in E2. symmetry in E2.
      apply same_number_spec in E2. congruence.
  - apply String.eqb_sym.
Qed.

(** Reading a map after [map.set]. *)
Lemma Map_get_map_set {V} (m : list (value * V)) k0 v k :
  map_get same_value_zero (map_set same_value_zero m k0 v) k =
    if same_value_zero k0 k then Some v else map_get same_value_zero m k.
Proof.
  induction m as [|[k' v'] m IH]; simpl.
  - reflexivity.
  - destruct (same_value_zero k' k0) eqn:E; simpl.
    + rewrite (same_value_zero_trans k' k0 k E).
      now destruct (same_value_zero k0 k).
    + rewrite IH.
      destruct (same_value_zero k' k) eqn:E1; trivial.
      destruct (same_value_zero k0 k) eqn:E2; trivial.
      pose proof (same_value_zero_trans k' k k0 E1) as H.
      rewrite E, same_value_zero_sym, E2 in H. discriminate H.
Qed.
End SameValueZero.

(** ** Properties of the loaders *)

Section LoaderFacts.
Implicit Types (m : list (value * value)) (k e : value).

Lemma Map_get_Map_set m id e k :
  Map_get (Map_set m id e) k =
    if same_value_zero id k then Some e else Map_get m k.
Proof.
  unfold Map_get, Map_set. rewrite Map_get_map_set.
  destruct id; trivial.
  destruct (is_zero x) eqn:Hz; trivial.
  destruct k; trivial. simpl.
  rewrite (same_number_class 0%float x); trivial.
  unfold number_class.
  destruct (is_zero_spec x Hz) as [b ->]. reflexivity.
Qed.

Lemma In_map_set {K V} (same : K -> K -> bool) (mp : list (K * V))
    (key0 : K) (x0 : V) (key : K) (x : V) :
  In (key, x) (map_set same mp key0 x0) -> x = x0 \/ In (key, x) mp.
Proof.
  induction mp as [|[k' v'] mp IH]; simpl.
  - intros [[= <- <-]|[]]. now left.
  - destruct (same k' key0); simpl.
    + intros [[= <- <-]|H]; [now left|right; now right].
    + intros [H|H]; [right; now left|].
      destruct (IH H); [now left|right; now right].
Qed.

Lemma find_rev_cons {A} (f : A -> bool) (a : A) (l : list A) :
  find f (rev (a :: l)) =
    match find f (rev l) with
    | Some x => Some x
    | None => if f a then Some a else None
    end.
Proof.
  simpl. generalize (rev l) as r.
  induction r as [|x r IH]; simpl; [reflexivity|].
  now destruct (f x).
Qed.

(** One turn of the loop of [loadJsonArrayAsMap] on an element that
    passes its two checks. *)
Lemma index_by_id_step m element rest :
  basicType element = "object" -> id_of element <> VUndefined ->
  index_by_id m (element :: rest) =
    index_by_id (Map_set m (id_of element) element) rest.
Proof.
  intros Hb Hid. simpl. rewrite Hb. simpl.
  destruct (id_of element); trivial. now contradiction Hid.
Qed.

Lemma index_by_id_get elements : forall m m',
  Forall (fun e => basicType e = "object" /\ id_of e <> VUndefined) elements ->
  index_by_id m elements = Ok m' ->
  forall k,
    Map_get m' k =
      match find (fun e => same_value_zero (id_of e) k) (rev elements) with
      | Some e => Some e
      | None => Map_get m k
      end.
Proof.
  induction elements as [|a rest IH]; intros m m' Hall H k.
  - simpl in *. now injection H as <-.
  - inversion Hall as [|? ? [Hb Hid] Hall']; subst.
    rewrite index_by_id_step in H by trivial.
    rewrite (IH _ _ Hall' H k), find_rev_cons, Map_get_Map_set.
    destruct (find _ (rev rest)); trivial.
    now destruct (same_value_zero (id_of a) k).
Qed.

Lemma index_by_id_values elements : forall m m',
  index_by_id m elements = Ok m' ->
  forall k e, In (k, e) m' -> In e elements \/ In (k, e) m.
Proof.
  induction elements as [|a rest IH]; intros m m' H k e Hin.
  - simpl in H. injection H as <-. now right.
  - simpl in H.
    destruct (negb (basicType a =? "object")); [discriminate|].
    assert (Hstep : forall id, index_by_id (Map_set m id a) rest = Ok m' ->
              In e (a :: rest) \/ In (k, e) m).
    { intros id H'. destruct (IH _ _ H' k e Hin) as [?|Hm].
      - left. now right.
      - apply In_map_set in Hm. destruct Hm as [->|?]; [left; now left|now right]. }
    destruct (id_of a); try discriminate; eauto.
Qed.

Lemma index_by_id_total elements : forall m,
  Forall (fun e => basicType e = "object" /\ id_of e <> VUndefined) elements ->
  exists m', index_by_id m elements = Ok m'.
Proof.
  induction elements as [|a rest IH]; intros m Hall.
  - now exists m.
  - inversion Hall as [|? ? [Hb Hid] Hall']; subst.
    rewrite index_by_id_step by trivial. now apply IH.
Qed.

Lemma index_by_id_rejects elements : forall m,
  Exists (fun e => basicType e <> "object" \/ id_of e = VUndefined) elements ->
  index_by_id m elements = Throw (Error "Expected all elements to be objects") \/
  index_by_id m elements =
    Throw (Error "Expected all elements to have an id property").
Proof.
  induction elements as [|a rest IH]; intros m Hex.
  - inversion Hex.
  - simpl.
    destruct (basicType a =? "object") eqn:Hb; simpl; [|now left].
    apply String.eqb_eq in Hb.
    destruct (id_of a) eqn:Hid; try (now right);
      (apply IH; inversion Hex as [? ? [Hbad|Hbad]|]; subst;
       [now contradiction Hbad|rewrite Hid in Hbad; discriminate Hbad|trivial]).
Qed.

End LoaderFacts.

(** ** Property order and rebuilding an object from its entries *)

Section PropertyOrder.
Context {A : Type}.
Implicit Types (o acc : list (string * A)) (k : string) (v : A).

Lemma StronglySorted_app_cross {X} (R : X -> X -> Prop) (l1 l2 : list X) :
  StronglySorted R (l1 ++ l2) ->
  forall x y, In x l1 -> In y l2 -> R x y.
Proof.
  induction l1 as [|a l1 IH]; simpl; intros H x y Hx Hy; [contradiction|].
  inversion H as [|? ? Hs Hall]; subst.
  destruct Hx as [->|Hx].
  - rewrite Forall_forall in Hall. apply Hall, in_or_app. now right.
  - now apply IH.
Qed.

Lemma own_None_keys o k :
  Forall (fun k' => k' <> k) (keys o) -> own o k = None.
Proof.
  induction o as [|[k0 v0] o IH]; simpl; intros H; [reflexivity|].
  inversion H as [|? ? Hk Hrest]; subst.
  destruct (k0 =? k) eqn:E; [|now apply IH].
  apply String.eqb_eq in E. contradiction.
Qed.

Lemma insert_index_last o i k v :
  Forall (fun k' => exists j, array_index k' = Some j /\ (j < i)%N) (keys o) ->
  insert_index o i k v = o ++ [(k, v)].
Proof.
  induction o as [|[k0 v0] o IH]; simpl; intros H; [reflexivity|].
  inversion H as [|? ? (j & Hj & Hlt) Hrest]; subst.
  rewrite Hj. apply N.ltb_lt in Hlt. rewrite Hlt.
  now rewrite IH.
Qed.

(** A key that may stand after all the keys of an object is created at
    its end. *)
Lemma define_last o k v :
  Forall (fun k' => before k' k) (keys o) -> define o k v = o ++ [(k, v)].
Proof.
  intros H. unfold define, has_own.
  rewrite own_None_keys.
  - destruct (array_index k) as [i|] eqn:Hi; [|reflexivity].
    apply insert_index_last.
    eapply Forall_impl; [|exact H].
    intros k' [_ Hk']. now apply Hk'.
  - eapply Forall_impl; [|exact H]. now intros k' [Hk' _].
Qed.

(** Creating the properties of an object in property order, one after
    the other, gives the object back. *)
Lemma rebuild o : forall acc,
  property_order (acc ++ o) ->
  fold_left (fun o' e => define o' (fst e) (snd e)) o acc = acc ++ o.
Proof.
  induction o as [|[k v] o IH]; intros acc H; simpl.
  - now rewrite app_nil_r.
  - rewrite define_last.
    + rewrite IH; rewrite <- app_assoc; [reflexivity|exact H].
    + apply Forall_forall. intros k' Hk'.
      unfold property_order, keys in H. rewrite map_app in H.
      apply (StronglySorted_app_cross _ _ _ H); [exact Hk'|now left].
Qed.

Lemma from_entries_property_order o :
  property_order o -> from_entries o = o.
Proof. intros H. unfold from_entries. now rewrite rebuild. Qed.

(** Distinct keys none of which is an array index are in property
    order. *)
Lemma property_order_plain o :
  NoDup (keys o) ->
  Forall (fun e => array_index (fst e) = None) o ->
  property_order o.
Proof.
  unfold property_order.
  induction o as [|[k v] o IH]; simpl; intros Hnd Hplain; constructor.
  - inversion Hnd; inversion Hplain; subst. now apply IH.
  - inversion Hnd as [|? ? Hnot _]; inversion Hplain as [|? ? _ Hrest]; subst.
    apply Forall_forall. intros k' Hk'. split.
    + intros ->. contradiction.
    + intros i Hi. unfold keys in Hk'. apply in_map_iff in Hk'.
      destruct Hk' as ([k'' v''] & <- & Hin).
      rewrite Forall_forall in Hrest. specialize (Hrest _ Hin).
      simpl in *. congruence.
Qed.
End PropertyOrder.

(** ** JSON values survive [JSON.stringify] and [JSON.parse] *)

Section RoundTrip.

Lemma value_nested_ind (P : value -> Prop) :
  P VUndefined -> P VNull -> (forall b, P (VBool b)) ->
  (forall x, P (VNum x)) -> (forall s, P (VStr s)) ->
  (forall elems, Forall P elems -> P (VArr elems)) ->
  (forall members, Forall (fun m => P (snd m)) members -> P (VObj members)) ->
  forall v, P v.
Proof.
  intros Hu Hn Hb Hx Hs Ha Ho.
  fix IH 1.
  intros [| |b|x|s|elems|members];
    [exact Hu|exact Hn|apply Hb|apply Hx|apply Hs| |].
  - apply Ha. induction elems as [|e elems IHe]; constructor.
    + apply IH.
    + exact IHe.
  - apply Ho. induction members as [|[k e] members IHm]; constructor.
    + apply IH.
    + exact IHm.
Qed.

Lemma to_json_revive v :
  json_value v -> exists d, to_json v = Some d /\ revive d = v.
Proof.
  induction v as [| |b|x|s|elems IH|members IH] using value_nested_ind;
    intros Hv; inversion Hv as [| |? Hfin Hzero| |? Hall|? Hord Hall]; subst;
    simpl; try (eexists; split; reflexivity).
  - rewrite Hfin. eexists; split; [reflexivity|]. simpl.
    destruct (is_zero x) eqn:Hz; [|reflexivity].
    now rewrite (Hzero eq_refl).
  - eexists; split; [reflexivity|]. simpl. f_equal.
    rewrite map_map.
    induction elems as [|e elems IHe]; simpl; [reflexivity|].
    inversion IH as [|? ? He IH']; inversion Hall as [|? ? Hje Hall']; subst.
    destruct (He Hje) as (d & Hd & Hr). rewrite Hd, Hr.
    f_equal. apply IHe; trivial. now constructor.
  - eexists; split; [reflexivity|]. simpl. f_equal.
    rewrite <- (from_entries_property_order members Hord) at 2.
    f_equal. clear Hord Hv.
    induction members as [|[k e] members IHm]; simpl; [reflexivity|].
    inversion IH as [|? ? He IH']; inversion Hall as [|? ? Hje Hall']; subst.
    simpl in He, Hje. destruct (He Hje) as (d & Hd & Hr).
    rewrite Hd. simpl. rewrite Hr.
    f_equal. now apply IHm.
Qed.

Lemma members_revive (m : list (string * value)) :
  Forall (fun e => json_value (snd e)) m ->
  map (fun e => (fst e, revive (snd e)))
    (flat_map (fun e => match to_json (snd e) with
                        | Some d => [(fst e, d)]
                        | None => []
                        end) m) = m.
Proof.
  induction m as [|[k e] m IH]; simpl; intros H; [reflexivity|].
  inversion H as [|? ? He H']; subst. simpl in He.
  destruct (to_json_revive e He) as (d & Hd & Hr).
  rewrite Hd. simpl. rewrite Hr.
  now rewrite IH.
Qed.
End RoundTrip.

(** ** Properties of [mapToObject] and of [new Map] *)

Section SaveFacts.
Implicit Types (m acc : list (string * value)).

Lemma mapToObject_rejects map : forall acc,
  Exists (fun e => typeof (fst e) <> "string") map ->
  exists t, t <> "string" /\
    mapToObject_from acc map =
      Throw (Error ("Expected all keys to be string but got " ++ t)).
Proof.
  induction map as [|[key value] map IH]; intros acc Hex.
  - inversion Hex.
  - simpl.
    destruct key;
      try (eexists; split; [|reflexivity]; discriminate).
    apply IH. inversion Hex as [? ? Hbad|]; subst; trivial.
    now contradiction Hbad.
Qed.

Lemma new_Map_string_keyed m : forall acc,
  NoDup (keys (acc ++ m)) ->
  fold_left (fun mp e => Map_set mp (fst e) (snd e)) (string_keyed m)
    (string_keyed acc) = string_keyed (acc ++ m).
Proof.
  induction m as [|[k v] m IH]; intros acc Hnd; simpl.
  - now rewrite app_nil_r.
  - assert (Hk : own acc k = None).
    { apply own_None_keys, Forall_forall. intros k' Hk' ->.
      unfold keys in Hnd. rewrite map_app in Hnd. simpl in Hnd.
      apply NoDup_remove_2 in Hnd. apply Hnd, in_or_app. now left. }
    assert (Hset : Map_set (string_keyed acc) (VStr k) v =
                   string_keyed (acc ++ [(k, v)])).
    { unfold Map_set. clear Hnd IH.
      induction acc as [|[k0 v0] acc IHa]; simpl in *; [reflexivity|].
      destruct (k0 =? k); [discriminate|]. now rewrite IHa. }
    rewrite Hset, IH; now rewrite <- app_assoc.
Qed.

Lemma loadJsonAsMap_object d path gap doc members :
  file_at d path = Content (Json gap doc) ->
  revive doc = VObj members ->
  loadJsonAsMap d path = Ok (new_Map (Object_entries (VObj members))).
Proof.
  unfold loadJsonAsMap, readFile. intros -> Hobj. simpl. now rewrite Hobj.
Qed.

Lemma new_Map_entries m :
  NoDup (keys m) -> new_Map (Object_entries (VObj m)) = string_keyed m.
Proof.
  intros Hnd. unfold new_Map, Object_entries.
  change (map (fun e => (VStr (fst e), snd e)) m) with (string_keyed m).
  exact (new_Map_string_keyed m [] Hnd).
Qed.

Lemma safeOutputFile_read d path c d' :
  safeOutputFile d path c = (d', Ok tt) ->
  file_at d' path = Content c /\
  forall p, p <> path -> file_at d' p = file_at d p.
Proof.
  unfold safeOutputFile.
  destruct (refused d path); [discriminate|].
  intros [= <-]. simpl. rewrite String.eqb_refl. split; [reflexivity|].
  intros p Hp. destruct (p =? path) eqn:E; [|reflexivity].
  apply String.eqb_eq in E. contradiction.
Qed.
End SaveFacts.

(** ** Array indices are written in one way *)

Section ArrayIndex.
Implicit Types (s k : string) (c : ascii) (n v acc : N).

Lemma digit_bound c n : digit c = Some n -> (n < 10)%N.
Proof.
  unfold digit.
  destruct ((48 <=? N_of_ascii c)%N && (N_of_ascii c <=? 57)%N) eqn:E;
    [|discriminate].
  apply andb_prop in E. destruct E as [E1 E2].
  apply N.leb_le in E1, E2. intros [= <-]. lia.
Qed.

Lemma digit_inj c1 c2 n : digit c1 = Some n -> digit c2 = Some n -> c1 = c2.
Proof.
  unfold digit.
  destruct ((48 <=? N_of_ascii c1)%N && (N_of_ascii c1 <=? 57)%N) eqn:E1;
    [|discriminate].
  destruct ((48 <=? N_of_ascii c2)%N && (N_of_ascii c2 <=? 57)%N) eqn:E2;
    [|discriminate].
  apply andb_prop in E1, E2. destruct E1 as [E1 _], E2 as [E2 _].
  apply N.leb_le in E1, E2. intros [= <-] [= H].
  rewrite <- (ascii_N_embedding c1), <- (ascii_N_embedding c2).
  f_equal. lia.
Qed.

Lemma digit_zero c : digit c = Some 0%N -> c = "0"%char.
Proof. intros H. now apply (digit_inj c "0"%char 0%N). Qed.

Lemma width_String c s : width (String c s) = N.succ (width s).
Proof. unfold width. simpl. lia. Qed.

(** Reading digits after [acc] shifts [acc] by their number. *)
Lemma decimal_shift s : forall acc,
  decimal s acc =
    match decimal s 0 with
    | Some v => Some (acc * 10 ^ width s + v)%N
    | None => None
    end.
Proof.
  induction s as [|c s IH]; intros acc; cbn [decimal].
  - f_equal. unfold width. cbn [String.length N.of_nat]. lia.
  - destruct (digit c) as [d|]; [|reflexivity].
    rewrite (IH (10 * acc + d)%N), (IH (10 * 0 + d)%N).
    destruct (decimal s 0) as [v|]; [|reflexivity].
    f_equal. rewrite width_String, N.pow_succ_r'. lia.
Qed.

Lemma decimal_String c s :
  decimal (String c s) 0 =
    match digit c, decimal s 0 with
    | Some d, Some v => Some (d * 10 ^ width s + v)%N
    | _, _ => None
    end.
Proof.
  cbn [decimal]. destruct (digit c) as [d|]; [|reflexivity].
  rewrite decimal_shift. destruct (decimal s 0); [|reflexivity].
  f_equal; lia.
Qed.

Lemma decimal_bound s : forall v, decimal s 0 = Some v -> (v < 10 ^ width s)%N.
Proof.
  induction s as [|c s IH]; intros v.
  - simpl. intros [= <-]. unfold width. simpl. lia.
  - rewrite decimal_String.
    destruct (digit c) as [d|] eqn:Hd; [|discriminate].
    destruct (decimal s 0) as [v'|]; [|discriminate].
    intros [= <-]. specialize (IH v' eq_refl).
    apply digit_bound in Hd.
    rewrite width_String, N.pow_succ_r'. nia.
Qed.

Lemma decimal_inj s1 : forall s2 v,
  width s1 = width s2 ->
  decimal s1 0 = Some v -> decimal s2 0 = Some v -> s1 = s2.
Proof.
  induction s1 as [|c1 s1 IH]; intros [|c2 s2] v Hw; trivial;
    try (rewrite width_String in Hw; unfold width in Hw; simpl in Hw; lia).
  rewrite !width_String in Hw. apply N.succ_inj in Hw.
  rewrite !decimal_String.
  destruct (digit c1) as [d1|] eqn:Hd1; [|discriminate].
  destruct (decimal s1 0) as [v1|] eqn:Hv1; [|discriminate].
  destruct (digit c2) as [d2|] eqn:Hd2; [|discriminate].
  destruct (decimal s2 0) as [v2|] eqn:Hv2; [|discriminate].
  intros [= <-] [= H].
  pose proof (decimal_bound s1 v1 Hv1) as B1.
  pose proof (decimal_bound s2 v2 Hv2) as B2.
  rewrite Hw in B1, H.
  assert (d1 = d2 /\ v1 = v2) as [-> ->].
  { apply (N.div_mod_unique (10 ^ width s2)); trivial. lia. }
  f_equal.
  - now apply (digit_inj c1 c2 d2).
  - now apply (IH s2 v2).
Qed.

(** An array index other than [0] has a leading digit that is not 0. *)
Lemma array_index_range k n :
  array_index k = Some n ->
  decimal k 0 = Some n /\ (k = "0" \/ (10 ^ N.pred (width k) <= n)%N).
Proof.
  unfold array_index. destruct k as [|c rest]; [discriminate|].
  destruct ((c =? "0")%char && negb (rest =? "")) eqn:E; [discriminate|].
  destruct (decimal (String c rest) 0) as [v|] eqn:Hv; [|discriminate].
  destruct (v <=? 4294967294)%N; [|discriminate].
  intros [= <-]. split; [reflexivity|].
  rewrite decimal_String in Hv.
  destruct (digit c) as [d|] eqn:Hd; [|discriminate].
  destruct (decimal rest 0) as [v'|] eqn:Hv'; [|discriminate].
  injection Hv as <-.
  rewrite width_String, N.pred_succ.
  destruct (N.eq_dec d 0) as [->|Hnz].
  - left. apply digit_zero in Hd. subst c.
    simpl in E. destruct rest; [reflexivity|discriminate].
  - right. nia.
Qed.

Lemma array_index_inj k1 k2 n :
  array_index k1 = Some n -> array_index k2 = Some n -> k1 = k2.
Proof.
  intros H1 H2.
  destruct (array_index_range k1 n H1) as [D1 R1].
  destruct (array_index_range k2 n H2) as [D2 R2].
  pose proof (decimal_bound k1 n D1) as B1.
  pose proof (decimal_bound k2 n D2) as B2.
  assert (Hzero : forall k, decimal k 0 = Some 0%N ->
            k = "0" \/ (10 ^ N.pred (width k) <= 0)%N -> array_index k <> None ->
            k = "0").
  { intros k _ [->|Hk] _; [reflexivity|].
    pose proof (N.pow_nonzero 10 (N.pred (width k))). lia. }
  destruct R1 as [->|R1].
  - simpl in D1. injection D1 as <-.
    symmetry. apply Hzero; trivial. now rewrite H2.
  - destruct R2 as [->|R2].
    + simpl in D2. injection D2 as <-.
      apply Hzero; trivial; [now right|now rewrite H1].
    + apply (decimal_inj k1 k2 n); trivial.
      destruct (N.lt_trichotomy (width k1) (width k2)) as [Hlt|[Heq|Hgt]];
        trivial; exfalso.
      * assert (10 ^ width k1 <= 10 ^ N.pred (width k2))%N
          by (apply N.pow_le_mono_r; lia).
        lia.
      * assert (10 ^ width k2 <= 10 ^ N.pred (width k1))%N
          by (apply N.pow_le_mono_r; lia).
        lia.
Qed.
End ArrayIndex.

(** ** Objects stay in property order *)

Section DefineOrder.
Context {A : Type}.
Implicit Types (o acc m : list (string * A)) (k : string) (v : A).

Lemma keys_replace o k v : keys (replace o k v) = keys o.
Proof.
  induction o as [|[k0 v0] o IH]; simpl; [reflexivity|].
  destruct (k0 =? k); simpl; [reflexivity|now rewrite IH].
Qed.

Lemma keys_insert_index o i k v x :
  In x (keys (insert_index o i k v)) <-> x = k \/ In x (keys o).
Proof.
  induction o as [|[k0 v0] o IH]; simpl.
  - intuition.
  - destruct (array_index k0) as [j|]; [destruct (j <? i)%N|]; simpl;
      rewrite ?IH; intuition.
Qed.

Lemma own_None_In o k x : own o k = None -> In x (keys o) -> x <> k.
Proof.
  intros Hk Hx ->. apply In_own in Hx. destruct Hx as [v Hv]. congruence.
Qed.

Lemma insert_index_order o i k v :
  property_order o -> own o k = None -> array_index k = Some i ->
  property_order (insert_index o i k v).
Proof.
  unfold property_order. intros Hord Hk Hi.
  induction o as [|[k0 v0] o IH]; simpl.
  - repeat constructor.
  - simpl in Hord, Hk. inversion Hord as [|? ? Hsorted Hbefore]; subst.
    destruct (k0 =? k) eqn:E; [discriminate|].
    apply String.eqb_neq in E.
    assert (Hfresh : forall x, In x (keys o) -> before k x ->
              before k x) by trivial.
    rewrite Forall_forall in Hbefore.
    destruct (array_index k0) as [j|] eqn:Hj; [destruct (j <? i)%N eqn:Hlt|].
    + simpl. constructor; [now apply IH|].
      apply Forall_forall. intros x Hx. apply keys_insert_index in Hx.
      destruct Hx as [->|Hx]; [|now apply Hbefore].
      split; trivial. intros i2 Hi2. rewrite Hi in Hi2. injection Hi2 as <-.
      exists j. split; trivial. now apply N.ltb_lt.
    + simpl. constructor; [exact Hord|].
      assert (Hij : (i < j)%N).
      { apply N.ltb_ge in Hlt. destruct (N.eq_dec i j) as [->|]; [|lia].
        exfalso. apply E. now apply (array_index_inj k0 k j). }
      constructor.
      * split; [congruence|].
        intros i2 Hi2. rewrite Hj in Hi2. injection Hi2 as <-. now exists i.
      * apply Forall_forall. intros x Hx. split.
        -- intros <-. now apply (own_None_In o k k Hk).
        -- intros i2 Hi2. destruct (Hbefore x Hx) as [_ Hb].
           destruct (Hb i2 Hi2) as (j' & Hj' & Hlt').
           rewrite Hj in Hj'. injection Hj' as <-. exists i. split; trivial. lia.
    + simpl. constructor; [exact Hord|].
      constructor.
      * split; [congruence|]. intros i2 Hi2. congruence.
      * apply Forall_forall. intros x Hx. split.
        -- intros <-. now apply (own_None_In o k k Hk).
        -- intros i2 Hi2. destruct (Hbefore x Hx) as [_ Hb].
           destruct (Hb i2 Hi2) as (j' & Hj' & _). congruence.
Qed.

Lemma StronglySorted_snoc {X} (R : X -> X -> Prop) (l : list X) (x : X) :
  StronglySorted R l -> Forall (fun y => R y x) l -> StronglySorted R (l ++ [x]).
Proof.
  induction l as [|a l IH]; simpl; intros Hs Hall.
  - repeat constructor.
  - inversion Hs as [|? ? Hs' Ha]; inversion Hall as [|? ? Hax Hall']; subst.
    constructor; [now apply IH|].
    apply Forall_app. split; trivial. now repeat constructor.
Qed.

(** Creating or updating a property keeps an object in property order. *)
Lemma define_order o k v : property_order o -> property_order (define o k v).
Proof.
  intros Hord. unfold define, has_own.
  destruct (own o k) as [v0|] eqn:Hk.
  - unfold property_order. now rewrite keys_replace.
  - destruct (array_index k) as [i|] eqn:Hi.
    + now apply insert_index_order.
    + unfold property_order, keys. rewrite map_app. simpl.
      apply StronglySorted_snoc; [exact Hord|].
      apply Forall_forall. intros x Hx. split.
      * now apply (own_None_In o k x Hk).
      * intros i2 Hi2. congruence.
Qed.

Lemma from_entries_order m : forall acc,
  property_order acc ->
  property_order (fold_left (fun o e => define o (fst e) (snd e)) m acc).
Proof.
  induction m as [|[k v] m IH]; intros acc Hacc; simpl; trivial.
  apply IH. now apply define_order.
Qed.

Lemma property_order_NoDup o : property_order o -> NoDup (keys o).
Proof.
  unfold property_order.
  induction 1 as [|k l Hs IH Hall]; constructor; trivial.
  intros Hin. rewrite Forall_forall in Hall.
  now destruct (Hall k Hin) as [Hne _].
Qed.

(** With one entry per key, the object built from the entries of a map
    holds, key by key, what the map holds. *)
Lemma own_from_entries m : forall acc k,
  NoDup (keys m) ->
  own (fold_left (fun o e => define o (fst e) (snd e)) m acc) k =
    match own m k with
    | Some v => Some v
    | None => own acc k
    end.
Proof.
  induction m as [|[k0 v0] m IH]; intros acc k Hnd; simpl; trivial.
  inversion Hnd as [|? ? Hnot Hnd']; subst.
  rewrite (IH _ _ Hnd'), own_define.
  destruct (k0 =? k) eqn:E; trivial.
  apply String.eqb_eq in E; subst k0.
  destruct (own m k) as [v|] eqn:Hm; trivial.
  exfalso. apply Hnot.
  apply own_In in Hm. now apply (in_map fst) in Hm.
Qed.

(** The keys that are not array indices keep the order in which they were
    created. *)
Lemma filter_plain_insert_index o i k v :
  array_index k = Some i ->
  filter plain (insert_index o i k v) = filter plain o.
Proof.
  intros Hi.
  assert (Hk : plain (k, v) = false) by (unfold plain; simpl; now rewrite Hi).
  induction o as [|[k0 v0] o IH]; cbn [insert_index].
  - cbn [filter]. now rewrite Hk.
  - destruct (array_index k0) as [j|] eqn:Hj; [destruct (j <? i)%N|];
      cbn [filter]; rewrite ?Hk; trivial.
    now rewrite IH.
Qed.

Lemma define_fresh o k v :
  own o k = None ->
  define o k v =
    match array_index k with
    | Some i => insert_index o i k v
    | None => o ++ [(k, v)]
    end.
Proof. intros Hk. unfold define, has_own. now rewrite Hk. Qed.

Lemma filter_plain_from_entries m :
  NoDup (keys m) -> filter plain (from_entries m) = filter plain m.
Proof.
  unfold from_entries.
  induction m as [|[k v] m IH] using rev_ind; intros Hnd; trivial.
  unfold keys in Hnd. rewrite map_app in Hnd. simpl in Hnd.
  assert (Hnd' : NoDup (keys m)) by now apply NoDup_app_remove_r in Hnd.
  assert (Hk : own (fold_left (fun o e => define o (fst e) (snd e)) m []) k = None).
  { rewrite own_from_entries by trivial.
    destruct (own m k) as [v'|] eqn:Hm; trivial.
    exfalso. apply own_In in Hm. apply (in_map fst) in Hm.
    apply NoDup_remove_2 in Hnd. apply Hnd. now rewrite app_nil_r. }
  rewrite fold_left_app. cbn [fold_left fst snd].
  rewrite filter_app. cbn [filter].
  rewrite (define_fresh _ k v Hk).
  assert (Hp : plain (k, v) =
               match array_index k with Some _ => false | None => true end)
    by reflexivity.
  rewrite Hp.
  destruct (array_index k) as [i|] eqn:Hi.
  - rewrite filter_plain_insert_index by trivial.
    rewrite app_nil_r. now apply IH.
  - rewrite filter_app. cbn [filter]. rewrite Hp.
    now rewrite IH.
Qed.
End DefineOrder.

(** ** The object [mapToObject] builds *)

Section MapToObject.
Implicit Types (m acc obj : list (string * value)).

Lemma own_NoDup {A} (o : list (string * A)) k v :
  NoDup (keys o) -> In (k, v) o -> own o k = Some v.
Proof. exact (map_get_NoDup o k v). Qed.

Lemma mapToObject_from_entries m : forall acc,
  Forall (fun e => fst e <> "__proto__") m ->
  mapToObject_from acc (string_keyed m) =
    Ok (fold_left (fun o e => define o (fst e) (snd e)) m acc).
Proof.
  induction m as [|[k v] m IH]; intros acc Hm; simpl; trivial.
  inversion Hm as [|? ? Hk Hm']; subst. simpl in Hk.
  rewrite <- (IH _ Hm'). f_equal.
  unfold assign. destruct (has_own acc k); trivial.
  destruct (k =? "__proto__") eqn:E; trivial.
  apply String.eqb_eq in E. contradiction.
Qed.

(** The object built from a map with one entry per key has the entries of
    the map, in property order, the keys that are not array indices in
    the order of the map. *)
Lemma from_entries_spec m :
  NoDup (keys m) ->
  (forall k v, In (k, v) (from_entries m) <-> In (k, v) m) /\
  property_order (from_entries m) /\
  filter plain (from_entries m) = filter plain m /\
  (Forall (fun e => array_index (fst e) = None) m -> from_entries m = m).
Proof.
  intros Hnd.
  assert (Hord : property_order (from_entries m)).
  { apply from_entries_order. constructor. }
  split; [|split; [|split]]; trivial.
  - intros k v. split; intros Hin.
    + apply (own_NoDup _ k v (property_order_NoDup _ Hord)) in Hin.
      unfold from_entries in Hin. rewrite own_from_entries in Hin by trivial.
      destruct (own m k) as [v'|] eqn:Hm; [|discriminate].
      injection Hin as ->. now apply own_In.
    + apply own_In. unfold from_entries. rewrite own_from_entries by trivial.
      now rewrite (own_NoDup m k v Hnd Hin).
  - now apply filter_plain_from_entries.
  - intros Hplain. apply from_entries_property_order.
    now apply property_order_plain.
Qed.

Lemma json_values_from_entries m :
  NoDup (keys m) ->
  Forall (fun e => json_value (snd e)) m ->
  Forall (fun e => json_value (snd e)) (from_entries m).
Proof.
  intros Hnd Hall. rewrite Forall_forall in *.
  intros [k v] Hin. apply Hall.
  now apply (proj1 (from_entries_spec m Hnd)).
Qed.
End MapToObject.

(** ** Serializing, restoring and serializing again *)

Section Restorable.
Implicit Types (obj acc : snapshot) (r done : ItemCountWithQuality).

Lemma own_app_last {A} (o : list (string * A)) k (x : A) :
  own o k = None -> own (o ++ [(k, x)]) k = Some x.
Proof. intros H. now rewrite own_app, H, String.eqb_refl. Qed.

Lemma replace_app_last {A} (o : list (string * A)) k (x y : A) :
  own o k = None -> replace (o ++ [(k, x)]) k y = o ++ [(k, y)].
Proof.
  induction o as [|[k0 v0] o IH]; simpl.
  - now rewrite String.eqb_refl.
  - destruct (k0 =? k); [discriminate|]. intros H. now rewrite IH.
Qed.

Lemma define_app_last {A} (o : list (string * A)) k (x y : A) :
  own o k = None -> define (o ++ [(k, x)]) k y = o ++ [(k, y)].
Proof.
  intros H. unfold define, has_own. rewrite (own_app_last o k x H).
  now apply replace_app_last.
Qed.

Lemma property_order_cons {A} (e : string * A) (o : list (string * A)) :
  property_order (e :: o) -> property_order o.
Proof. unfold property_order. simpl. now inversion 1. Qed.

Lemma property_order_last {A} (o1 o2 : list (string * A)) k (x : A) :
  property_order (o1 ++ (k, x) :: o2) ->
  Forall (fun k' => before k' k) (keys o1).
Proof.
  unfold property_order, keys. rewrite map_app. simpl. intros H.
  apply Forall_forall. intros k' Hk'.
  apply (StronglySorted_app_cross _ _ _ H); [exact Hk'|now left].
Qed.

Lemma before_own_None {A} (o : list (string * A)) k :
  Forall (fun k' => before k' k) (keys o) -> own o k = None.
Proof.
  intros H. apply own_None_keys.
  eapply Forall_impl; [|exact H]. now intros k' [Hk' _].
Qed.

(** On a record in normal form, the loop over its qualities writes the
    record out as it is. *)
Lemma serialize_qualities_rebuild acc name r todo : forall done,
  own acc name = None ->
  done <> [] ->
  property_order (done ++ todo) ->
  (forall q s, In (q, s) todo ->
     own r q = Some s /\ q <> "__proto__" /\ differs_from_zero s = true) ->
  fold_left (serialize_quality name r) (keys todo) (acc ++ [(name, done)]) =
    acc ++ [(name, done ++ todo)].
Proof.
  induction todo as [|[q s] todo IH]; intros done Hacc Hdone Hord Hall.
  - simpl. now rewrite app_nil_r.
  - destruct (Hall q s (or_introl eq_refl)) as (Hq & Hproto & Hd).
    change (keys ((q, s) :: todo)) with (q :: keys todo). cbn [fold_left].
    assert (Hhas : has_own (acc ++ [(name, done)]) name = true)
      by (unfold has_own; now rewrite own_app_last).
    unfold serialize_quality at 2. unfold get. rewrite Hq, Hd, Hhas.
    cbn [orb]. rewrite (own_app_last acc name done Hacc).
    assert (Hassign : assign done q s = done ++ [(q, s)]).
    { unfold assign.
      assert (Hlast : define done q s = done ++ [(q, s)])
        by (apply define_last; now apply (property_order_last done todo q s)).
      destruct (has_own done q); trivial.
      apply String.eqb_neq in Hproto. now rewrite Hproto. }
    rewrite Hassign, (define_app_last acc name done _ Hacc).
    rewrite (IH (done ++ [(q, s)])); trivial.
    + now rewrite <- app_assoc.
    + now destruct done.
    + now rewrite <- app_assoc.
    + intros q' s' Hin. apply Hall. now right.
Qed.

Lemma normal_record_entries r :
  normal_record r ->
  forall q s, In (q, s) r ->
    own r q = Some s /\ q <> "__proto__" /\ differs_from_zero s = true.
Proof.
  intros (_ & Hord & Hall) q s Hin.
  rewrite Forall_forall in Hall. destruct (Hall _ Hin) as (H1 & _ & H3).
  repeat split; trivial.
  apply own_NoDup; trivial. now apply property_order_NoDup.
Qed.

Lemma serialize_item_rebuild acc name r :
  Forall (fun k' => before k' name) (keys acc) ->
  inherited name = false ->
  normal_record r ->
  serialize_item acc (name, r) = acc ++ [(name, r)].
Proof.
  intros Hbefore Hinh Hnormal.
  pose proof (normal_record_entries r Hnormal) as Hentries.
  destruct Hnormal as (Hne & Hord & Hall).
  pose proof (before_own_None acc name Hbefore) as Hacc.
  destruct r as [|[q s] rest]; [now contradiction Hne|].
  unfold serialize_item.
  change (keys ((q, s) :: rest)) with (q :: keys rest). cbn [fold_left].
  destruct (Hentries q s (or_introl eq_refl)) as (Hq & Hproto & Hd).
  assert (Hhas : has_own acc name = false)
    by (unfold has_own; now rewrite Hacc).
  unfold serialize_quality at 2. unfold get. rewrite Hq, Hd, Hhas, Hinh.
  cbn [orb]. rewrite (define_last acc name [] Hbefore).
  rewrite (own_app_last acc name [] Hacc).
  assert (Hassign : assign [] q s = [(q, s)]).
  { unfold assign, has_own. cbn [own].
    apply String.eqb_neq in Hproto. rewrite Hproto.
    now apply (define_last [] q s). }
  rewrite Hassign, (define_app_last acc name [] _ Hacc).
  apply (serialize_qualities_rebuild acc name ((q, s) :: rest) rest [(q, s)]);
    trivial.
  - discriminate.
  - intros q' s' Hin. apply Hentries. now right.
Qed.

(** Serializing a ledger whose map is in normal form gives the map. *)
Lemma serialize_rebuild todo : forall acc,
  normal_form (acc ++ todo) ->
  fold_left serialize_item todo acc = acc ++ todo.
Proof.
  induction todo as [|[name r] todo IH]; intros acc Hnf; cbn [fold_left].
  - now rewrite app_nil_r.
  - destruct Hnf as [Hord Hall].
    assert (Hitem : inherited name = false /\ normal_record r).
    { rewrite Forall_forall in Hall. apply (Hall (name, r)).
      apply in_or_app. right. now left. }
    destruct Hitem as [Hinh Hrec].
    rewrite serialize_item_rebuild; trivial.
    + rewrite IH; rewrite <- app_assoc; [reflexivity|now split].
    + now apply (property_order_last acc todo name r).
Qed.
(** *** Serializing a restorable ledger gives a normal form *)

Lemma replace_replace {A} (o : list (string * A)) k (x y : A) :
  replace (replace o k x) k y = replace o k y.
Proof.
  induction o as [|[k0 v0] o IH]; simpl; trivial.
  destruct (k0 =? k) eqn:E; simpl; rewrite E; trivial.
  now rewrite IH.
Qed.

Lemma replace_insert_index {A} (o : list (string * A)) i k (x y : A) :
  own o k = None ->
  replace (insert_index o i k x) k y = insert_index o i k y.
Proof.
  induction o as [|[k0 v0] o IH]; simpl; intros Hk.
  - now rewrite String.eqb_refl.
  - destruct (k0 =? k) eqn:E; [discriminate|].
    destruct (array_index k0) as [j|]; [destruct (j <? i)%N|]; simpl;
      rewrite ?E, ?String.eqb_refl; trivial.
    now rewrite IH.
Qed.

(** Defining a key twice is defining it once, with the second value. *)
Lemma define_define {A} (o : list (string * A)) k (x y : A) :
  define (define o k x) k y = define o k y.
Proof.
  unfold define at 1.
  assert (Hhas : has_own (define o k x) k = true)
    by (unfold has_own; now rewrite own_define, String.eqb_refl).
  rewrite Hhas. unfold define, has_own.
  destruct (own o k) eqn:Hk.
  - apply replace_replace.
  - destruct (array_index k) as [i|].
    + now apply replace_insert_index.
    + now apply replace_app_last.
Qed.

Lemma Forall_replace {A} (P : string * A -> Prop) (o : list (string * A)) k v :
  Forall P o -> P (k, v) -> Forall P (replace o k v).
Proof.
  induction o as [|[k0 v0] o IH]; simpl; intros Ho Hk; trivial.
  inversion Ho; subst.
  destruct (k0 =? k) eqn:E; constructor; auto.
  apply String.eqb_eq in E. now subst k0.
Qed.

Lemma Forall_insert_index {A} (P : string * A -> Prop)
    (o : list (string * A)) i k v :
  Forall P o -> P (k, v) -> Forall P (insert_index o i k v).
Proof.
  induction o as [|[k0 v0] o IH]; simpl; intros Ho Hk.
  - now constructor.
  - inversion Ho; subst.
    destruct (array_index k0) as [j|]; [destruct (j <? i)%N|];
      repeat constructor; auto.
Qed.

Lemma Forall_define {A} (P : string * A -> Prop) (o : list (string * A)) k v :
  Forall P o -> P (k, v) -> Forall P (define o k v).
Proof.
  intros Ho Hk. unfold define.
  destruct (has_own o k); [now apply Forall_replace|].
  destruct (array_index k); [now apply Forall_insert_index|].
  apply Forall_app. split; trivial. now constructor.
Qed.

Lemma define_not_nil {A} (o : list (string * A)) k v : define o k v <> [].
Proof.
  intros H. assert (Hk : own (define o k v) k = None) by now rewrite H.
  rewrite own_define, String.eqb_refl in Hk. discriminate.
Qed.

(** Writing a valid count other than 0 under a quality other than
    [__proto__] keeps a record in normal form, and makes one of the empty
    record. *)
Lemma assign_normal_record r q s :
  r = [] \/ normal_record r ->
  q <> "__proto__" -> valid_count s -> differs_from_zero s = true ->
  normal_record (assign r q s).
Proof.
  intros Hr Hq Hs Hd.
  assert (Hassign : assign r q s = define r q s).
  { unfold assign. destruct (has_own r q); trivial.
    apply String.eqb_neq in Hq. now rewrite Hq. }
  rewrite Hassign.
  assert (Hord : property_order r)
    by (destruct Hr as [->|(_ & H & _)]; [constructor|exact H]).
  assert (Hall : Forall (fun p => fst p <> "__proto__" /\ valid_count (snd p) /\
                                  differs_from_zero (snd p) = true) r)
    by (destruct Hr as [->|(_ & _ & H)]; [constructor|exact H]).
  split; [apply define_not_nil|]. split.
  - now apply define_order.
  - now apply Forall_define.
Qed.

Lemma serialize_quality_normal_form db name qualities obj quality :
  restorable db ->
  In (name, qualities) (_items db) ->
  In quality (keys qualities) ->
  normal_form obj ->
  normal_form (serialize_quality name qualities obj quality).
Proof.
  intros Hdb Hin Hq [Hord Hall]. unfold serialize_quality.
  destruct (In_own qualities quality Hq) as [s Hs].
  unfold get. rewrite Hs.
  destruct (differs_from_zero s) eqn:Hd; [|now split].
  destruct (Hdb name qualities quality s Hin Hs) as [Hvalid Hproto].
  assert (Hquality : quality <> "__proto__").
  { intros ->. rewrite (Hproto eq_refl) in Hd. discriminate. }
  destruct (own obj name) as [target|] eqn:Hown.
  - assert (Hhas : has_own obj name = true)
      by (unfold has_own; now rewrite Hown).
    rewrite Hhas. cbn [orb]. rewrite Hown.
    pose proof (own_In _ _ _ Hown) as Htarget.
    rewrite Forall_forall in Hall. destruct (Hall _ Htarget) as [Hinh Hrec].
    split; [now apply define_order|].
    apply Forall_define; [now apply Forall_forall|].
    split; trivial. apply assign_normal_record; auto.
  - assert (Hhas : has_own obj name = false)
      by (unfold has_own; now rewrite Hown).
    rewrite Hhas. cbn [orb].
    destruct (inherited name) eqn:Hinh.
    + rewrite Hown. now split.
    + rewrite own_define, String.eqb_refl, define_define.
      split; [now apply define_order|].
      apply Forall_define; trivial.
      split; trivial. apply assign_normal_record; auto.
Qed.

Lemma serialize_normal_form db : restorable db -> normal_form (serialize db).
Proof.
  intros Hdb. unfold serialize.
  assert (Hitem : forall name qualities obj,
            In (name, qualities) (_items db) -> normal_form obj ->
            normal_form (serialize_item obj (name, qualities))).
  { intros name qualities obj Hin. unfold serialize_item.
    assert (H : forall l, incl l (keys qualities) -> forall obj',
               normal_form obj' ->
               normal_form (fold_left (serialize_quality name qualities) l obj')).
    { induction l as [|quality l IH]; intros Hl obj' Hnf; simpl; trivial.
      apply IH; [intros k Hk; apply Hl; now right|].
      apply (serialize_quality_normal_form db); trivial. apply Hl. now left. }
    apply H, incl_refl. }
  assert (H : forall todo, incl todo (_items db) -> forall obj,
             normal_form obj -> normal_form (fold_left serialize_item todo obj)).
  { induction todo as [|[name qualities] todo IH]; intros Hl obj Hnf;
      cbn [fold_left]; trivial.
    apply IH; [intros k Hk; apply Hl; now right|].
    apply Hitem; trivial. apply Hl. now left. }
  apply H; [apply incl_refl|]. split; constructor.
Qed.

(** *** [constructor] accepts a normal form as it is *)

Lemma check_counts_valid counts :
  Forall valid_count counts -> check_counts counts = Ok tt.
Proof.
  induction 1 as [|s counts (x & -> & Hx) _ IH]; simpl; trivial.
  now rewrite Hx.
Qed.

Lemma restore_normal_form todo : forall acc,
  NoDup (keys (acc ++ todo)) ->
  Forall (fun e => Forall valid_count (map snd (snd e))) todo ->
  restore acc (entries_of todo) = Ok (acc ++ todo).
Proof.
  induction todo as [|[name r] todo IH]; intros acc Hnd Hvalid; simpl.
  - now rewrite app_nil_r.
  - inversion Hvalid as [|? ? Hr Hvalid']; subst. simpl in Hr.
    rewrite (check_counts_valid _ Hr). simpl.
    rewrite map_set_fresh.
    + rewrite IH; [now rewrite <- app_assoc|now rewrite <- app_assoc|trivial].
    + unfold map_has.
      change (map_get String.eqb acc name) with (own acc name).
      rewrite own_None_keys; trivial.
      apply Forall_forall. intros k' Hk' ->.
      unfold keys in Hnd. rewrite map_app in Hnd. simpl in Hnd.
      apply NoDup_remove_2 in Hnd. apply Hnd, in_or_app. now left.
Qed.

Lemma constructor_normal_form s :
  normal_form s ->
  constructor (Some (entries_of s)) = Ok {| _items := s |}.
Proof.
  intros [Hord Hall]. simpl.
  rewrite (restore_normal_form s []); trivial.
  - now apply property_order_NoDup.
  - eapply Forall_impl; [|exact Hall].
    intros [name r] (_ & _ & _ & Hr). simpl.
    apply Forall_map. eapply Forall_impl; [|exact Hr].
    now intros p (_ & Hp & _).
Qed.
End Restorable.

(** ** The ledger: add, remove and read *)

(** C1, as the code has it.  For a string name and quality and a count
    [c] that [checkCount] accepts, take the count [s] the ledger keeps
    for them (the stored number, 0 when nothing is stored).  When [s] and
    [c] are integers of at most 2^53 in magnitude and so is their sum, or
    more generally when adding [c] and then [-c] to [s] in binary64
    arithmetic gives [s] back, or when [s] is a zero, [addItem] followed
    by [removeItem] leaves [getItemCount] where it was. *)
Theorem addItem_removeItem_restores_count
    (db : ItemDatabase) (n q : string) (count : slot) (c s : number) :
  checkCount count = Ok c ->
  count_of db n q = Some s ->
  (exists zs zc : Z,
     s = of_Z zs /\ c = of_Z zc /\
     exact_integer zs /\ exact_integer zc /\ exact_integer (zs + zc)) \/
  (s + c + - c)%float = s \/
  is_zero s = true ->
  exists db1 db2,
    addItem db (VStr n) count (VStr q) = Ok db1 /\
    removeItem db1 (VStr n) count (VStr q) = Ok db2 /\
    getItemCount db2 (VStr n) (VStr q) = getItemCount db (VStr n) (VStr q).
Proof.
  intros Hc Hs Hround.
  assert (Hround' : (s + c + - c)%float = s \/ is_zero s = true).
  { destruct Hround as [(zs & zc & -> & -> & Hzs & Hzc & Hsum)|H]; [|exact H].
    left. now apply of_Z_add_opp. }
  clear Hround. rename Hround' into Hround.
  destruct (checkCount_Ok _ _ Hc) as [-> Hnan].
  destruct (addItem_stored db n q c s Hnan Hs)
    as (db1 & Hadd & t & Hst1 & Hct1 & Ht).
  assert (Hnan' : is_nan (- c)%float = false) by now rewrite is_nan_opp.
  destruct (addItem_stored db1 n q (- c)%float t Hnan' Hct1)
    as (db2 & Hrem & u & Hst2 & Hct2 & Hu).
  exists db1, db2. split; [exact Hadd|]. split.
  - unfold removeItem. rewrite Hc. exact Hrem.
  - rewrite (getItemCount_count_of db2 n q u Hct2).
    rewrite (getItemCount_count_of db n q s Hs).
    assert (Hu' : u = (t + - c)%float).
    { destruct Hu as [Hu|[Habs _]]; [exact Hu|].
      unfold stored in Hst1. now rewrite Habs in Hst1. }
    subst u.
    destruct Ht as [->|[Habs ->]].
    + destruct Hround as [->|Hz]; [reflexivity|].
      now rewrite (zero_add_opp_falsy s c Hz), (is_zero_falsy s Hz).
    + unfold count_of in Hs. rewrite Habs in Hs. injection Hs as <-.
      now rewrite add_opp_falsy.
Qed.

Lemma addItem_removeItem_restores_count_witness :
  exists db1 db2,
    addItem iron5 (VStr "iron") (Num 3%float) (VStr "normal") = Ok db1 /\
    removeItem db1 (VStr "iron") (Num 3%float) (VStr "normal") = Ok db2 /\
    getItemCount db2 (VStr "iron") (VStr "normal") =
      getItemCount iron5 (VStr "iron") (VStr "normal").
Proof.
  apply (addItem_removeItem_restores_count iron5 "iron" "normal"
           (Num 3%float) 3%float 5%float).
  - reflexivity.
  - reflexivity.
  - left. exists 5%Z, 3%Z. unfold exact_integer.
    repeat split; try reflexivity; lia.
Defined.

(** C1 as stated fails.  Counts are binary64 numbers: on a ledger holding
    1, adding 2^53 gives 2^53, and removing it again leaves 0. *)
Lemma addItem_removeItem_rounding_counterexample :
  checkCount (Num 9007199254740992%float) = Ok 9007199254740992%float /\
  getItemCount iron1 (VStr "iron") (VStr "normal") = Ok (Num 1%float) /\
  (db1 <- addItem iron1 (VStr "iron") (Num 9007199254740992%float)
            (VStr "normal") ;;
   db2 <- removeItem db1 (VStr "iron") (Num 9007199254740992%float)
            (VStr "normal") ;;
   getItemCount db2 (VStr "iron") (VStr "normal")) = Ok (Num 0%float) /\
  Ok (Num 0%float) <> getItemCount iron1 (VStr "iron") (VStr "normal").
Proof.
  repeat split; try reflexivity.
  intros H. vm_compute in H.
  apply (f_equal (fun r => match r with
                           | Ok (Data (VNum x)) => is_zero x
                           | _ => false
                           end)) in H.
  vm_compute in H. discriminate H.
Qed.

(** It fails on [Infinity] too, which passes the count validation: on a
    ledger holding 5 the two calls leave NaN, which reads as 0. *)
Lemma addItem_removeItem_infinity :
  checkCount (Num infinity) = Ok infinity /\
  getItemCount iron5 (VStr "iron") (VStr "normal") = Ok (Num 5%float) /\
  (db1 <- addItem iron5 (VStr "iron") (Num infinity) (VStr "normal") ;;
   db2 <- removeItem db1 (VStr "iron") (Num infinity) (VStr "normal") ;;
   Ok (db2, getItemCount db2 (VStr "iron") (VStr "normal"))) =
    Ok ({| _items := [("iron", [("normal", Num nan)])] |}, Ok (Num 0%float)).
Proof. repeat split; reflexivity. Qed.




(** ** The ledger: restoring and serializing *)

(** C4.  A bare number [x] under an item name is restored exactly as the
    record [{ normal: x }] is; [{ wood: 5 }] gives a ledger in which
    [getItemCount("wood", "normal")] is 5; and nothing else is rewritten:
    a restored ledger holds, name by name and in order, the migrated
    entries, a record being kept as it is. *)
Theorem constructor_migrates_bare_numbers :
  (forall front back name x,
     constructor (Some (front ++ (name, Bare x) :: back)) =
     constructor (Some (front ++ (name, Qualities [("normal", Num x)]) :: back))) /\
  (exists db,
     constructor (Some [("wood", Bare 5%float)]) = Ok db /\
     getItemCount db (VStr "wood") (VStr "normal") = Ok (Num 5%float)) /\
  (forall entries db,
     constructor (Some entries) = Ok db ->
     NoDup (map fst entries) ->
     _items db = map (fun e => (fst e, migrate (snd e))) entries /\
     forall name q, In (name, Qualities q) entries ->
       map_get String.eqb (_items db) name = Some q).
Proof.
  split; [|split].
  - intros front back name x. simpl. now rewrite restore_migrate.
  - eexists; split; reflexivity.
  - intros entries db H Hnd. simpl in H.
    destruct (restore [] entries) as [items|] eqn:Hr; [|discriminate].
    injection H as <-. simpl.
    apply restore_fresh in Hr; trivial. simpl in Hr. subst items.
    split; [reflexivity|].
    intros name q Hin. apply map_get_NoDup.
    + now rewrite map_map.
    + apply (in_map (fun e => (fst e, migrate (snd e)))) in Hin. exact Hin.
Qed.

Lemma constructor_migrates_bare_numbers_witness :
  _items {| _items := [("wood", [("normal", Num 5%float)]);
                       ("iron", [("rare", Num 2%float)])] |} =
    map (fun e => (fst e, migrate (snd e)))
      [("wood", Bare 5%float); ("iron", Qualities [("rare", Num 2%float)])] /\
  forall name q,
    In (name, Qualities q)
      [("wood", Bare 5%float); ("iron", Qualities [("rare", Num 2%float)])] ->
    map_get String.eqb
      (_items {| _items := [("wood", [("normal", Num 5%float)]);
                            ("iron", [("rare", Num 2%float)])] |}) name = Some q.
Proof.
  apply (proj2 (proj2 constructor_migrates_bare_numbers)
           [("wood", Bare 5%float); ("iron", Qualities [("rare", Num 2%float)])]).
  - reflexivity.
  - repeat constructor; simpl; intuition discriminate.
Defined.

(** C9 fails on the code.  The calls
    [addItem("iron", Infinity, "normal")] and
    [removeItem("iron", Infinity, "normal")] on an empty ledger leave NaN
    stored; [serialize] writes it out, and [constructor] refuses that
    output. *)
Lemma serialize_output_refused :
  (db1 <- addItem empty (VStr "iron") (Num infinity) (VStr "normal") ;;
   removeItem db1 (VStr "iron") (Num infinity) (VStr "normal")) = Ok iron_nan /\
  serialize iron_nan = [("iron", [("normal", Num nan)])] /\
  constructor (Some (entries_of (serialize iron_nan))) =
    Throw (Error "count must be a number").
Proof. repeat split; reflexivity. Qed.

(** It fails on a quality named [__proto__] too: the record made by
    [addItem("iron", 5, "__proto__")] has it as an own property, the
    assignment in [serialize] reaches the inherited setter instead, and
    the empty record written for [iron] is gone from the second output. *)
Lemma serialize_proto_quality :
  addItem empty (VStr "iron") (Num 5%float) (VStr "__proto__") =
    Ok {| _items := [("iron", [("__proto__", Num 5%float)])] |} /\
  serialize {| _items := [("iron", [("__proto__", Num 5%float)])] |} =
    [("iron", [])] /\
  constructor (Some (entries_of [("iron", [])])) =
    Ok {| _items := [("iron", [])] |} /\
  serialize {| _items := [("iron", [])] |} = [].
Proof. repeat split; reflexivity. Qed.

(** C10.  Whatever the call, and whether it returns or throws, a name in
    the map before it is in the map after it and [size] does not drop;
    the same holds along any sequence of calls. *)
Theorem names_are_never_removed (db : ItemDatabase) :
  (forall call name,
     resident db name = true -> resident (after db call) name = true) /\
  (forall call, size db <= size (after db call)) /\
  (forall calls name,
     resident db name = true ->
     resident (fold_left after calls db) name = true) /\
  (forall calls, size db <= size (fold_left after calls db)).
Proof.
  split; [|split; [|split]].
  - intros call name. apply after_resident.
  - apply after_size.
  - intros calls. revert db.
    induction calls as [|call calls IH]; intros db name H; simpl; trivial.
    apply IH. now apply after_resident.
  - intros calls. revert db.
    induction calls as [|call calls IH]; intros db; simpl; [lia|].
    specialize (IH (after db call)). pose proof (after_size db call). lia.
Qed.

Lemma names_are_never_removed_witness :
  resident
    (fold_left after
       [AddItem (VStr "plate") (Num 3%float) (VStr "normal");
        RemoveItem (VStr "iron") (Num 5%float) (VStr "normal");
        AddItem (VNum 1%float) (Num 3%float) (VStr "normal");
        Serialize] iron5) "iron" = true.
Proof.
  apply (proj1 (proj2 (proj2 (names_are_never_removed iron5)))).
  reflexivity.
Defined.

(** C2 fails on the code.  After [addItem("toString", 1, "name")] the
    ledger has the item [toString] with the count 1 under the quality
    [name].  In [serialize] the object being built has no own key
    [toString], so [obj["toString"]] is the function it inherits from
    [Object.prototype], no record is made, and the assignment
    [obj["toString"]["name"] = 1] is on the read-only [name] of that
    function: the call throws a [TypeError] and returns no object. *)
Lemma serialize_throws_on_member_name :
  addItem empty (VStr "toString") (Num 1%float) (VStr "name") =
    Ok {| _items := [("toString", [("name", Num 1%float)])] |} /\
  stored {| _items := [("toString", [("name", Num 1%float)])] |}
    "toString" "name" = Some (Num 1%float) /\
  inherited "toString" = true /\
  write_on_member "toString" "name" (Num 1%float) = Refused /\
  serialize_outcome {| _items := [("toString", [("name", Num 1%float)])] |} =
    ThrowsTypeError.
Proof. repeat split; reflexivity. Qed.

(** X19.  Zero pruning, where [serialize] returns.  Take any ledger a
    client can have, one made by [constructor] and then put through any
    calls, in which no item is named as a member of [Object.prototype].
    The call of [serialize] returns, and the object it returns has no
    property for a quality whose stored count is exactly 0 and no
    property for an item none of whose counts differs from 0, while
    [size] is the number of names in the map, which are distinct,
    whatever their counts. *)
Theorem serialize_omits_zero_counts
    (serialized : option (list (string * entry))) (calls : list call)
    (db0 : ItemDatabase) :
  constructor serialized = Ok db0 ->
  let db := fold_left after calls db0 in
  Forall (fun n => inherited n = false) (names db) ->
  exists obj,
    serialize_outcome db = Returns obj /\
    (forall name q s rec,
       stored db name q = Some s -> differs_from_zero s = false ->
       own obj name = Some rec -> own rec q = None) /\
    (forall name qualities,
       map_get String.eqb (_items db) name = Some qualities ->
       (forall q s, own qualities q = Some s -> differs_from_zero s = false) ->
       own obj name = None) /\
    size db = length (names db) /\ NoDup (names db).
Proof.
  intros H db Hnames.
  pose proof (reachable_NoDup serialized calls db0 H) as Hnd. fold db in Hnd.
  destruct (serialize_omissions db Hnd) as [H1 H2].
  exists (serialize db). split; [now apply serialize_outcome_returns|].
  repeat split; trivial.
  unfold size, names. now rewrite length_map.
Qed.

(** After [addItem("plate", 3, "normal")] and
    [removeItem("plate", 3, "normal")] the output of [serialize] has no
    [plate], and [size] still counts it. *)
Lemma serialize_omits_zero_counts_witness :
  let db := fold_left after
              [AddItem (VStr "plate") (Num 3%float) (VStr "normal");
               RemoveItem (VStr "plate") (Num 3%float) (VStr "normal")] empty in
  exists obj,
    serialize_outcome db = Returns obj /\
    own obj "plate" = None /\ size db = 1.
Proof.
  intros db.
  destruct (serialize_omits_zero_counts None
              [AddItem (VStr "plate") (Num 3%float) (VStr "normal");
               RemoveItem (VStr "plate") (Num 3%float) (VStr "normal")]
              empty eq_refl)
    as (obj & Hret & _ & Hnone & Hsize & _).
  - repeat constructor.
  - exists obj. split; [exact Hret|]. split; [|exact Hsize].
    apply (Hnone "plate" [("normal", Num 0%float)]).
    + reflexivity.
    + intros q s. cbn [own]. destruct ("normal" =? q); intros H; [|discriminate H].
      injection H as H. now subst s.
Defined.

(** ** The codec: loading *)

(** C6.  [loadJsonAsMap] answers the empty map when reading the file
    fails with [ENOENT].  Any other failure comes out as it is: a read
    error with another code, the syntax error of [JSON.parse], and, when
    the text is JSON for anything but an object (an array, a scalar,
    [null]), the error [Expected object but got ...].  On an object it
    returns its entries. *)
Theorem loadJsonAsMap_outcomes (d : disk) (path : string) :
  (file_at d path = Unreadable "ENOENT" -> loadJsonAsMap d path = Ok []) /\
  (forall code,
     file_at d path = Unreadable code -> code <> "ENOENT" ->
     loadJsonAsMap d path = Throw (SystemError code)) /\
  (file_at d path = Content NotJson ->
   loadJsonAsMap d path = Throw SyntaxError) /\
  (forall gap doc,
     file_at d path = Content (Json gap doc) ->
     (forall members, revive doc <> VObj members) ->
     basicType (revive doc) <> "object" /\
     loadJsonAsMap d path =
       Throw (Error ("Expected object but got " ++ basicType (revive doc)))) /\
  (forall gap doc members,
     file_at d path = Content (Json gap doc) ->
     revive doc = VObj members ->
     loadJsonAsMap d path = Ok (new_Map (Object_entries (VObj members)))).
Proof.
  split; [|split; [|split; [|split]]]; try unfold loadJsonAsMap, readFile.
  - now intros ->.
  - intros code -> Hcode. simpl.
    destruct (code =? "ENOENT") eqn:E; trivial.
    apply String.eqb_eq in E. contradiction.
  - now intros ->.
  - intros gap doc -> Hnot. simpl.
    destruct (revive doc); try (split; [discriminate|reflexivity]).
    now contradiction (Hnot members).
  - intros gap doc members. apply loadJsonAsMap_object.
Qed.

Lemma loadJsonAsMap_outcomes_witness :
  let d := {| file_at := fun p =>
                if p =? "list.json"
                then Content (Json "" (JArray [JNumber 1%float; JNumber 2%float;
                                               JNumber 3%float]))
                else Unreadable "ENOENT";
              refused := fun _ => None |} in
  loadJsonAsMap d "/nonexistent/path.json" = Ok [] /\
  loadJsonAsMap d "list.json" = Throw (Error "Expected object but got array").
Proof.
  intros d. split.
  - apply (proj1 (loadJsonAsMap_outcomes d "/nonexistent/path.json")).
    reflexivity.
  - apply (proj1 (proj2 (proj2 (proj2 (loadJsonAsMap_outcomes d "list.json"))))
             "" (JArray [JNumber 1%float; JNumber 2%float; JNumber 3%float])).
    + reflexivity.
    + discriminate.
Defined.

(** C7.  [loadJsonArrayAsMap] answers the empty map when the file is
    missing.  It throws [Expected array but got ...] when the text is
    JSON for anything but an array, and one of [Expected all elements to
    be objects] and [Expected all elements to have an id property] when
    an element is not an object or has no defined [id].  Otherwise it
    returns a map in which looking up a key gives the last element whose
    [id] is that key, and every value of which is an element. *)
Theorem loadJsonArrayAsMap_outcomes (d : disk) (path : string) :
  (file_at d path = Unreadable "ENOENT" -> loadJsonArrayAsMap d path = Ok []) /\
  (forall gap doc,
     file_at d path = Content (Json gap doc) ->
     (forall elems, revive doc <> VArr elems) ->
     loadJsonArrayAsMap d path =
       Throw (Error ("Expected array but got " ++ basicType (revive doc)))) /\
  (forall gap doc elems,
     file_at d path = Content (Json gap doc) ->
     revive doc = VArr elems ->
     (Exists (fun e => basicType e <> "object" \/ id_of e = VUndefined) elems ->
      loadJsonArrayAsMap d path =
        Throw (Error "Expected all elements to be objects") \/
      loadJsonArrayAsMap d path =
        Throw (Error "Expected all elements to have an id property")) /\
     (Forall (fun e => basicType e = "object" /\ id_of e <> VUndefined) elems ->
      exists m,
        loadJsonArrayAsMap d path = Ok m /\
        (forall k,
           Map_get m k =
             find (fun e => same_value_zero (id_of e) k) (rev elems)) /\
        (forall k e, In (k, e) m -> In e elems))).
Proof.
  unfold loadJsonArrayAsMap, readFile.
  split; [|split].
  - now intros ->.
  - intros gap doc -> Hnot. simpl.
    destruct (revive doc); try reflexivity.
    now contradiction (Hnot elems).
  - intros gap doc elems -> Harr. simpl. rewrite Harr. simpl. split.
    + intros Hex.
      destruct (index_by_id_rejects elems [] Hex) as [-> | ->]; [now left|now right].
    + intros Hall.
      destruct (index_by_id_total elems [] Hall) as [m Hm].
      exists m. rewrite Hm. split; [reflexivity|]. split.
      * intros k. rewrite (index_by_id_get elems [] m Hall Hm k).
        now destruct (find _ (rev elems)).
      * intros k e Hin.
        destruct (index_by_id_values elems [] m Hm k e Hin) as [?|[]]; trivial.
Qed.

Lemma loadJsonArrayAsMap_outcomes_witness :
  let d := {| file_at := fun p =>
                if p =? "bad.json"
                then Content (Json "" (JArray [JObject [("name", JString "x")]]))
                else if p =? "good.json"
                then Content (Json "" (JArray
                       [JObject [("id", JNumber 1%float); ("v", JString "a")];
                        JObject [("id", JNumber 1%float); ("v", JString "b")]]))
                else Unreadable "ENOENT";
              refused := fun _ => None |} in
  (loadJsonArrayAsMap d "bad.json" =
     Throw (Error "Expected all elements to be objects") \/
   loadJsonArrayAsMap d "bad.json" =
     Throw (Error "Expected all elements to have an id property")) /\
  exists m,
    loadJsonArrayAsMap d "good.json" = Ok m /\
    (forall k,
       Map_get m k =
         find (fun e => same_value_zero (id_of e) k)
           (rev [VObj [("id", VNum 1%float); ("v", VStr "a")];
                 VObj [("id", VNum 1%float); ("v", VStr "b")]])) /\
    (forall k e, In (k, e) m ->
       In e [VObj [("id", VNum 1%float); ("v", VStr "a")];
             VObj [("id", VNum 1%float); ("v", VStr "b")]]).
Proof.
  intros d. split.
  - apply (proj1 (proj2 (proj2 (loadJsonArrayAsMap_outcomes d "bad.json"))
                    "" (JArray [JObject [("name", JString "x")]])
                    [VObj [("name", VStr "x")]] eq_refl eq_refl)).
    constructor. right. reflexivity.
  - apply (proj2 (proj2 (proj2 (loadJsonArrayAsMap_outcomes d "good.json"))
                    "" (JArray
                          [JObject [("id", JNumber 1%float); ("v", JString "a")];
                           JObject [("id", JNumber 1%float); ("v", JString "b")]])
                    [VObj [("id", VNum 1%float); ("v", VStr "a")];
                     VObj [("id", VNum 1%float); ("v", VStr "b")]]
                    eq_refl eq_refl)).
    repeat constructor; discriminate.
Defined.

(** ** The codec: saving *)

(** C8, as the code has it.  [saveMapAsJson] throws [Expected all keys to
    be string but got ...] when a key is not a string, and the disk is
    then as it was.  For a map with distinct string keys none of which is
    [__proto__], it writes at the path, with a tab as indentation, the
    JSON text of an object that has the entries of the map in property
    order: array indices first, in ascending order, then the other keys
    in the order of the map; members are the properties whose value is
    not [undefined].  When no key is an array index this is the order of
    the map.  When the write fails the disk is as it was. *)
Theorem saveMapAsJson_outcomes (d : disk) (path : string) :
  (forall map,
     Exists (fun e => typeof (fst e) <> "string") map ->
     exists t, t <> "string" /\
       saveMapAsJson d path map =
         (d, Throw (Error ("Expected all keys to be string but got " ++ t)))) /\
  (forall m,
     NoDup (map fst m) ->
     Forall (fun e => fst e <> "__proto__") m ->
     (forall code,
        refused d path = Some code ->
        saveMapAsJson d path (string_keyed m) = (d, Throw (SystemError code))) /\
     (refused d path = None ->
      exists d' obj,
        saveMapAsJson d path (string_keyed m) = (d', Ok tt) /\
        file_at d' path =
          Content (Json tab
            (JObject (flat_map (fun e => match to_json (snd e) with
                                         | Some doc => [(fst e, doc)]
                                         | None => []
                                         end) obj))) /\
        (forall p, p <> path -> file_at d' p = file_at d p) /\
        (forall k v, In (k, v) obj <-> In (k, v) m) /\
        property_order obj /\
        filter plain obj = filter plain m /\
        (Forall (fun e => array_index (fst e) = None) m -> obj = m))).
Proof.
  split.
  - intros map Hex. unfold saveMapAsJson, mapToObject.
    destruct (mapToObject_rejects map [] Hex) as (t & Ht & ->).
    now exists t.
  - intros m Hnd Hproto. unfold saveMapAsJson, mapToObject.
    rewrite (mapToObject_from_entries m [] Hproto).
    fold (from_entries m). split.
    + intros code Hcode. unfold safeOutputFile. now rewrite Hcode.
    + intros Hok.
      destruct (safeOutputFile d path (JSON_stringify_object (from_entries m) tab))
        as [d' r] eqn:Hsave.
      assert (r = Ok tt) as ->.
      { unfold safeOutputFile in Hsave. rewrite Hok in Hsave.
        now injection Hsave as _ <-. }
      exists d', (from_entries m). split; [reflexivity|].
      destruct (safeOutputFile_read _ _ _ _ Hsave) as [Hfile Hrest].
      destruct (from_entries_spec m Hnd) as (H1 & H2 & H3 & H4).
      repeat split; trivial; now apply H1.
Qed.

Lemma saveMapAsJson_outcomes_witness :
  (exists t, t <> "string" /\
     saveMapAsJson blank_disk "items.json"
       [(VStr "iron", VNum 1%float); (VNum 2%float, VNull)] =
       (blank_disk,
        Throw (Error ("Expected all keys to be string but got " ++ t)))) /\
  exists d' obj,
    saveMapAsJson blank_disk "items.json"
      (string_keyed [("iron", VNum 1%float); ("7", VStr "oak")]) =
      (d', Ok tt) /\
    file_at d' "items.json" =
      Content (Json tab
        (JObject (flat_map (fun e => match to_json (snd e) with
                                     | Some doc => [(fst e, doc)]
                                     | None => []
                                     end) obj))) /\
    (forall p, p <> "items.json" -> file_at d' p = file_at blank_disk p) /\
    (forall k v, In (k, v) obj <->
                 In (k, v) [("iron", VNum 1%float); ("7", VStr "oak")]) /\
    property_order obj /\
    filter plain obj = filter plain [("iron", VNum 1%float); ("7", VStr "oak")] /\
    (Forall (fun e => array_index (fst e) = None)
       [("iron", VNum 1%float); ("7", VStr "oak")] ->
     obj = [("iron", VNum 1%float); ("7", VStr "oak")]).
Proof.
  split.
  - apply (proj1 (saveMapAsJson_outcomes blank_disk "items.json")).
    right. left. discriminate.
  - apply (proj2 (saveMapAsJson_outcomes blank_disk "items.json")
             [("iron", VNum 1%float); ("7", VStr "oak")]).
    + repeat constructor; simpl; intuition discriminate.
    + repeat constructor; discriminate.
    + reflexivity.
Defined.

(** C8 as stated fails: the members of the written object are in
    property order, not in the order of the map.  The map with the
    entries [b] and then [1] is written with [1] first. *)
Lemma saveMapAsJson_order_counterexample :
  snd (saveMapAsJson blank_disk "items.json"
         (string_keyed [("b", VNum 1%float); ("1", VNum 2%float)])) = Ok tt /\
  file_at (fst (saveMapAsJson blank_disk "items.json"
                  (string_keyed [("b", VNum 1%float); ("1", VNum 2%float)])))
    "items.json" =
    Content (Json tab (JObject [("1", JNumber 2%float); ("b", JNumber 1%float)])) /\
  map fst [("1", JNumber 2%float); ("b", JNumber 1%float)] <>
  map fst [("b", VNum 1%float); ("1", VNum 2%float)].
Proof.
  split; [reflexivity|]. split; [reflexivity|]. discriminate.
Qed.

(** ** The codec: saving and loading again *)

(** C3, as the code has it.  Take a map with distinct string keys, none
    of them [__proto__], and JSON values.  Saving it and, the write done,
    loading the path gives a map with string keys that has the same
    entries, one per key; it has them in the same order when no key is
    an array index. *)
Theorem saveMapAsJson_loadJsonAsMap_round_trip
    (d : disk) (path : string) (m : list (string * value)) :
  NoDup (map fst m) ->
  Forall (fun e => json_value (snd e)) m ->
  Forall (fun e => fst e <> "__proto__") m ->
  refused d path = None ->
  exists d' loaded,
    saveMapAsJson d path (string_keyed m) = (d', Ok tt) /\
    loadJsonAsMap d' path = Ok (string_keyed loaded) /\
    (forall k v, In (k, v) loaded <-> In (k, v) m) /\
    NoDup (map fst loaded) /\
    (Forall (fun e => array_index (fst e) = None) m -> loaded = m).
Proof.
  intros Hnd Hjson Hproto Hok.
  unfold saveMapAsJson, mapToObject.
  rewrite (mapToObject_from_entries m [] Hproto).
  fold (from_entries m).
  destruct (safeOutputFile d path (JSON_stringify_object (from_entries m) tab))
    as [d' r] eqn:Hsave.
  assert (r = Ok tt) as ->.
  { unfold safeOutputFile in Hsave. rewrite Hok in Hsave.
    now injection Hsave as _ <-. }
  destruct (from_entries_spec m Hnd) as (Hsame & Hord & _ & Hplain).
  exists d', (from_entries m). split; [reflexivity|].
  destruct (safeOutputFile_read _ _ _ _ Hsave) as [Hfile _].
  split; [|split; [|split]]; trivial.
  - rewrite (loadJsonAsMap_object d' path _ _ (from_entries m) Hfile).
    + rewrite new_Map_entries; trivial. now apply property_order_NoDup.
    + cbn [revive].
      rewrite (members_revive _ (json_values_from_entries m Hnd Hjson)).
      now rewrite from_entries_property_order.
  - now apply property_order_NoDup.
Qed.

Lemma saveMapAsJson_loadJsonAsMap_round_trip_witness :
  exists d' loaded,
    saveMapAsJson blank_disk "items.json"
      (string_keyed [("iron", VNum 1%float);
                     ("wood", VObj [("3", VStr "oak"); ("kind", VNull)])]) =
      (d', Ok tt) /\
    loadJsonAsMap d' "items.json" = Ok (string_keyed loaded) /\
    (forall k v,
       In (k, v) loaded <->
       In (k, v) [("iron", VNum 1%float);
                  ("wood", VObj [("3", VStr "oak"); ("kind", VNull)])]) /\
    NoDup (map fst loaded) /\
    (Forall (fun e => array_index (fst e) = None)
       [("iron", VNum 1%float);
        ("wood", VObj [("3", VStr "oak"); ("kind", VNull)])] ->
     loaded = [("iron", VNum 1%float);
               ("wood", VObj [("3", VStr "oak"); ("kind", VNull)])]).
Proof.
  apply (saveMapAsJson_loadJsonAsMap_round_trip blank_disk "items.json").
  - repeat constructor; simpl; intuition discriminate.
  - repeat constructor; try discriminate; reflexivity.
  - repeat constructor; discriminate.
  - reflexivity.
Defined.

(** C3 as stated fails: the map with the entries [b] and then [1] comes
    back with [1] first. *)
Lemma saveMapAsJson_loadJsonAsMap_order_counterexample :
  snd (saveMapAsJson blank_disk "items.json"
         (string_keyed [("b", VNum 1%float); ("1", VNum 2%float)])) = Ok tt /\
  loadJsonAsMap
    (fst (saveMapAsJson blank_disk "items.json"
            (string_keyed [("b", VNum 1%float); ("1", VNum 2%float)])))
    "items.json" =
    Ok [(VStr "1", VNum 2%float); (VStr "b", VNum 1%float)] /\
  Ok [(VStr "1", VNum 2%float); (VStr "b", VNum 1%float)] <>
  Ok (string_keyed [("b", VNum 1%float); ("1", VNum 2%float)]).
Proof.
  split; [reflexivity|]. split; [reflexivity|]. discriminate.
Qed.

(** ** The ledger: validation *)

Section Validation.
Implicit Types (db : ItemDatabase) (n q : string) (c x : number).

Lemma checkCount_valid count :
  valid_count count -> exists x, checkCount count = Ok x /\ count = Num x.
Proof.
  intros (x & -> & Hx). exists x. simpl. now rewrite Hx.
Qed.

Lemma checkCount_invalid count :
  ~ valid_count count ->
  checkCount count = Throw (Error "count must be a number").
Proof.
  intros H. destruct count as [[]| |]; try reflexivity. simpl.
  destruct (is_nan x) eqn:E; [reflexivity|].
  exfalso. apply H. now exists x.
Qed.

Lemma valid_count_dec count : valid_count count \/ ~ valid_count count.
Proof.
  destruct (checkCount count) as [x|e] eqn:E.
  - left. destruct (checkCount_Ok _ _ E) as [-> Hx]. now exists x.
  - right. intros H. destruct (checkCount_valid _ H) as (x & Hx & _).
    rewrite Hx in E. discriminate E.
Qed.

Lemma check_counts_cases counts :
  check_counts counts = Ok tt /\ Forall valid_count counts \/
  check_counts counts = Throw (Error "count must be a number") /\
  ~ Forall valid_count counts.
Proof.
  induction counts as [|count counts IH]; simpl.
  - left. now split.
  - destruct (valid_count_dec count) as [Hv|Hv].
    + destruct (checkCount_valid _ Hv) as (x & -> & _). simpl.
      destruct IH as [[-> IH]|[-> IH]].
      * left. split; [reflexivity|now constructor].
      * right. split; [reflexivity|]. intros H. apply IH.
        now inversion H.
    + rewrite (checkCount_invalid _ Hv). right. split; [reflexivity|].
      intros H. apply Hv. now inversion H.
Qed.

Lemma restore_cases entries : forall items,
  (exists items', restore items entries = Ok items') /\
  Forall (fun e => Forall valid_count (map snd (migrate (snd e)))) entries \/
  restore items entries = Throw (Error "count must be a number") /\
  ~ Forall (fun e => Forall valid_count (map snd (migrate (snd e)))) entries.
Proof.
  induction entries as [|[name e] entries IH]; intros items; simpl.
  - left. split; [now exists items|constructor].
  - destruct (check_counts_cases (map snd (migrate e))) as [[-> Hv]|[-> Hv]];
      simpl.
    + destruct (IH (map_set String.eqb items name (migrate e)))
        as [[Hok Hall]|[Herr Hall]].
      * left. split; [exact Hok|now constructor].
      * right. split; [exact Herr|]. intros H. apply Hall. now inversion H.
    + right. split; [reflexivity|]. intros H. apply Hv. now inversion H.
Qed.
End Validation.

(** X3.  The constructor on a serialized object whose values are numbers
    or plain objects, the two kinds [entry] has.  It returns exactly when
    every count of every entry, a bare number counting as the record
    [{ normal: n }], is a number other than NaN; on such input the only
    error it throws is [count must be a number]: item names are strings,
    being property keys, and [checkName] never refuses one.  A value of
    another kind ([null], a boolean, a string, an array) is outside the
    statement. *)
Theorem constructor_validates_counts (entries : list (string * entry)) :
  (Forall (fun e => Forall valid_count (map snd (migrate (snd e)))) entries <->
   exists db, constructor (Some entries) = Ok db) /\
  (forall err, constructor (Some entries) = Throw err ->
     err = Error "count must be a number").
Proof.
  unfold constructor.
  destruct (restore_cases entries []) as [[[items Hok] Hall]|[Herr Hall]].
  - rewrite Hok. simpl. split.
    + split; [intros _; eauto|intros _; exact Hall].
    + intros err H. discriminate H.
  - rewrite Herr. simpl. split.
    + split; [intros H; contradiction|intros [db H]; discriminate H].
    + intros err H. now injection H as <-.
Qed.

(** X4.  The order of the checks.  [addItem] looks at the name, then at the
    count, then at the quality.  [removeItem] looks at the count first: a
    count that is not a number, or is NaN, is reported whatever the name
    and the quality are.  With a string name, a count that is a number
    other than NaN and a string quality, both return. *)
Theorem addItem_removeItem_validation
    (db : ItemDatabase) (name : value) (count : slot) (quality : value) :
  (typeof name <> "string" ->
   addItem db name count quality = Throw (Error "name must be a string")) /\
  (typeof name = "string" -> ~ valid_count count ->
   addItem db name count quality = Throw (Error "count must be a number")) /\
  (~ valid_count count ->
   removeItem db name count quality = Throw (Error "count must be a number")) /\
  (valid_count count -> typeof name <> "string" ->
   removeItem db name count quality = Throw (Error "name must be a string")) /\
  (valid_count count -> typeof name = "string" ->
   typeof quality <> "string" ->
   addItem db name count quality = Throw (Error "quality must be a string") /\
   removeItem db name count quality = Throw (Error "quality must be a string")) /\
  (valid_count count -> typeof name = "string" -> typeof quality = "string" ->
   (exists db', addItem db name count quality = Ok db') /\
   (exists db', removeItem db name count quality = Ok db')).
Proof.
  assert (Hname : typeof name <> "string" ->
                  checkName name = Throw (Error "name must be a string")).
  { destruct name; simpl; intros H; try reflexivity. now contradiction H. }
  assert (Hname' : typeof name = "string" -> exists n, name = VStr n).
  { destruct name; simpl; intros H; try discriminate H. eauto. }
  assert (Hquality : typeof quality <> "string" ->
            checkQuality quality = Throw (Error "quality must be a string")).
  { destruct quality; simpl; intros H; try reflexivity. now contradiction H. }
  assert (Hquality' : typeof quality = "string" -> exists q, quality = VStr q).
  { destruct quality; simpl; intros H; try discriminate H. eauto. }
  assert (Hneg : forall x, is_nan x = false ->
                           checkCount (Num (- x)%float) = Ok (- x)%float).
  { intros x Hx. simpl. now rewrite is_nan_opp, Hx. }
  repeat split.
  - intros H. unfold addItem. now rewrite Hname.
  - intros H Hc. destruct (Hname' H) as [n ->].
    unfold addItem. simpl. now rewrite (checkCount_invalid _ Hc).
  - intros Hc. unfold removeItem. now rewrite (checkCount_invalid _ Hc).
  - intros (x & -> & Hx) H. unfold removeItem, addItem. simpl.
    now rewrite Hx, Hname.
  - destruct H as (x & -> & Hx). destruct (Hname' H0) as [n ->].
    unfold addItem. simpl. now rewrite Hx, Hquality.
  - destruct H as (x & -> & Hx). destruct (Hname' H0) as [n ->].
    unfold removeItem, addItem. simpl checkCount at 1. rewrite Hx.
    cbn [bind checkName]. now rewrite Hneg, Hquality.
  - destruct H as (x & -> & Hx). destruct (Hname' H0) as [n ->].
    destruct (Hquality' H1) as [q ->].
    unfold addItem. simpl. rewrite Hx. simpl.
    destruct (map_get String.eqb (_items db) n); eauto.
  - destruct H as (x & -> & Hx). destruct (Hname' H0) as [n ->].
    destruct (Hquality' H1) as [q ->].
    unfold removeItem, addItem. simpl checkCount at 1. rewrite Hx.
    cbn [bind checkName]. rewrite Hneg by trivial. simpl.
    destruct (map_get String.eqb (_items db) n); eauto.
Qed.

(** ** The ledger: what a call changes *)

Section Updates.
Implicit Types (db : ItemDatabase) (n q : string) (c x s : number).

Lemma own_assign_other (r : ItemCountWithQuality) q (v : slot) q' :
  q <> q' -> own (assign r q v) q' = own r q'.
Proof.
  intros H. destruct (own_assign r q v q') as [E|[E _]]; [exact E|].
  now contradiction H.
Qed.

Lemma addItem_stored_other db name count quality db' n' q' :
  addItem db name count quality = Ok db' ->
  name <> VStr n' \/ quality <> VStr q' ->
  stored db' n' q' = stored db n' q'.
Proof.
  unfold addItem.
  destruct name as [| | | |n| |]; try discriminate. cbn [checkName bind].
  destruct (checkCount count) as [c|]; [|discriminate]. cbn [bind].
  destruct quality as [| | | |q| |]; try discriminate. cbn [checkQuality bind].
  intros H Hother. unfold stored.
  destruct (map_get String.eqb (_items db) n) as [r|] eqn:Hn;
    injection H as <-; cbn [_items]; rewrite map_get_set;
    destruct (n =? n') eqn:En; trivial;
    apply String.eqb_eq in En; subst n'; rewrite Hn;
    assert (Hq : q <> q') by (destruct Hother as [H|H]; congruence).
  - now apply own_assign_other.
  - cbn [own]. destruct (q =? q') eqn:Eq; [|reflexivity].
    apply String.eqb_eq in Eq. contradiction.
Qed.

(** Without the members of [Object.prototype], [getItemCount] is a
    function of what is stored. *)
Lemma getItemCount_by_stored db n q :
  inherited q = false ->
  getItemCount db (VStr n) (VStr q) =
    Ok (match stored db n q with
        | Some s => if slot_truthy s then s else Num 0%float
        | None => Num 0%float
        end).
Proof.
  intros Hq. destruct (stored db n q) as [s|] eqn:Hs.
  - now apply getItemCount_stored.
  - apply getItemCount_absent; auto.
Qed.

Lemma removeItem_addItem db name count quality db' :
  removeItem db name count quality = Ok db' ->
  exists c, addItem db name (Num (- c)%float) quality = Ok db'.
Proof.
  unfold removeItem.
  destruct (checkCount count) as [c|]; [|discriminate]. simpl. eauto.
Qed.

(** [0 + c] reads as [c] does. *)
Lemma zero_add_reads c :
  (if number_truthy (0 + c)%float then Num (0 + c)%float else Num 0%float) =
  (if number_truthy c then Num c else Num 0%float).
Proof.
  assert (H : Prim2SF (0 + c)%float = Prim2SF c \/
              number_truthy (0 + c)%float = false /\ number_truthy c = false).
  { rewrite !number_truthy_spec, add_spec.
    change (Prim2SF 0%float) with (S754_zero false).
    destruct (Prim2SF c) as [b|b| |b m e]; simpl; auto.
    right. now destruct b. }
  destruct H as [H|[-> ->]]; [|reflexivity].
  apply Prim2SF_inj in H. now rewrite H.
Qed.

(** What [getItemCount] answers after [addItem]. *)
Lemma getItemCount_addItem db n q c s :
  is_nan c = false ->
  count_of db n q = Some s ->
  exists db',
    addItem db (VStr n) (Num c) (VStr q) = Ok db' /\
    getItemCount db' (VStr n) (VStr q) =
      Ok (if number_truthy (s + c)%float then Num (s + c)%float
          else Num 0%float).
Proof.
  intros Hc Hs.
  destruct (addItem_stored db n q c s Hc Hs)
    as (db' & Hadd & t & _ & Ht & Hcase).
  exists db'. split; [exact Hadd|].
  rewrite (getItemCount_count_of db' n q t Ht).
  destruct Hcase as [->|[Hn ->]]; [reflexivity|].
  unfold count_of in Hs. rewrite Hn in Hs. injection Hs as <-.
  now rewrite zero_add_reads.
Qed.

Lemma of_Z_truthy z :
  exact_integer z -> z <> 0%Z -> number_truthy (of_Z z) = true.
Proof.
  intros Hz Hz0. rewrite number_truthy_spec, Prim2SF_of_Z by trivial.
  destruct (binary_normalize_integer z Hz Hz0) as (m & e & _ & _ & _ & ->).
  reflexivity.
Qed.

(** Reading an integer count: 0 reads as 0. *)
Lemma of_Z_reads z :
  exact_integer z ->
  (if number_truthy (of_Z z) then Num (of_Z z) else Num 0%float) =
  Num (of_Z z).
Proof.
  intros Hz. destruct (Z.eq_dec z 0) as [->|Hz0].
  - now destruct (number_truthy (of_Z 0)).
  - now rewrite of_Z_truthy.
Qed.

Lemma of_Z_sub a b :
  exact_integer a -> exact_integer b -> exact_integer (a - b) ->
  (of_Z a + - of_Z b)%float = of_Z (a - b).
Proof.
  intros Ha Hb Hab. destruct (Z.eq_dec b 0) as [->|Hb0].
  - change (of_Z 0) with 0%float. rewrite Z.sub_0_r.
    now destruct (of_Z_add_zero a Ha) as [_ ->].
  - assert (Hb' : exact_integer (- b)) by (unfold exact_integer in *; lia).
    rewrite of_Z_opp, of_Z_add by trivial. reflexivity.
Qed.

Lemma is_nan_of_Z z : exact_integer z -> is_nan (of_Z z) = false.
Proof.
  intros Hz. rewrite is_nan_spec, Prim2SF_of_Z by trivial.
  destruct (Z.eq_dec z 0) as [->|Hz0]; [reflexivity|].
  destruct (binary_normalize_integer z Hz Hz0) as (m & e & _ & _ & _ & ->).
  reflexivity.
Qed.

Lemma after_names db call :
  exists suffix, names (after db call) = names db ++ suffix.
Proof.
  destruct (after_items db call) as [->|(n & r & E)].
  - exists []. now rewrite app_nil_r.
  - unfold names. rewrite E, map_set_keys.
    destruct (map_has String.eqb (_items db) n).
    + exists []. now rewrite app_nil_r.
    + now exists [n].
Qed.
End Updates.

(** X5.  [addItem] and [removeItem] on a name and a quality leave every other
    count as it was: what is stored under another name, or under the same
    name and another quality, is unchanged, and so is what [getItemCount]
    answers for it when the quality does not name a member of
    [Object.prototype]. *)
Theorem addItem_removeItem_touch_one_count
    (db : ItemDatabase) (name : value) (count : slot) (quality : value)
    (n' q' : string) :
  name <> VStr n' \/ quality <> VStr q' ->
  (forall db', addItem db name count quality = Ok db' ->
     stored db' n' q' = stored db n' q' /\
     (inherited q' = false ->
      getItemCount db' (VStr n') (VStr q') =
        getItemCount db (VStr n') (VStr q'))) /\
  (forall db', removeItem db name count quality = Ok db' ->
     stored db' n' q' = stored db n' q' /\
     (inherited q' = false ->
      getItemCount db' (VStr n') (VStr q') =
        getItemCount db (VStr n') (VStr q'))).
Proof.
  intros Hother.
  assert (Hadd : forall count db',
            addItem db name count quality = Ok db' ->
            stored db' n' q' = stored db n' q' /\
            (inherited q' = false ->
             getItemCount db' (VStr n') (VStr q') =
               getItemCount db (VStr n') (VStr q'))).
  { intros count0 db' H.
    pose proof (addItem_stored_other db name count0 quality db' n' q' H Hother)
      as Hst.
    split; [exact Hst|]. intros Hq.
    now rewrite !getItemCount_by_stored, Hst by trivial. }
  split.
  - apply Hadd.
  - intros db' H. destruct (removeItem_addItem _ _ _ _ _ H) as [c Hc].
    now apply (Hadd (Num (- c)%float)).
Qed.

Lemma addItem_removeItem_touch_one_count_witness :
  (forall db',
     addItem iron5 (VStr "iron") (Num 2%float) (VStr "rare") = Ok db' ->
     stored db' "iron" "normal" = stored iron5 "iron" "normal" /\
     (inherited "normal" = false ->
      getItemCount db' (VStr "iron") (VStr "normal") =
        getItemCount iron5 (VStr "iron") (VStr "normal"))) /\
  (forall db',
     removeItem iron5 (VStr "iron") (Num 2%float) (VStr "rare") = Ok db' ->
     stored db' "iron" "normal" = stored iron5 "iron" "normal" /\
     (inherited "normal" = false ->
      getItemCount db' (VStr "iron") (VStr "normal") =
        getItemCount iron5 (VStr "iron") (VStr "normal"))).
Proof.
  apply (addItem_removeItem_touch_one_count iron5 (VStr "iron") (Num 2%float)
           (VStr "rare") "iron" "normal").
  right. discriminate.
Defined.

(** X6.  Reading after writing.  When the ledger keeps the count [s] for a
    name and a quality (0 when nothing is stored), [getItemCount] after
    [addItem] with the count [c] answers [s + c], and after [removeItem]
    it answers [s + (-c)]; a result that is a zero or NaN is answered
    as 0. *)
Theorem getItemCount_after_update
    (db : ItemDatabase) (n q : string) (c s : number) :
  is_nan c = false ->
  count_of db n q = Some s ->
  (exists db',
     addItem db (VStr n) (Num c) (VStr q) = Ok db' /\
     getItemCount db' (VStr n) (VStr q) =
       Ok (if number_truthy (s + c)%float then Num (s + c)%float
           else Num 0%float)) /\
  (exists db',
     removeItem db (VStr n) (Num c) (VStr q) = Ok db' /\
     getItemCount db' (VStr n) (VStr q) =
       Ok (if number_truthy (s + - c)%float then Num (s + - c)%float
           else Num 0%float)).
Proof.
  intros Hc Hs. split.
  - now apply getItemCount_addItem.
  - assert (Hc' : is_nan (- c)%float = false) by now rewrite is_nan_opp.
    destruct (getItemCount_addItem db n q (- c)%float s Hc' Hs)
      as (db' & Hadd & Hget).
    exists db'. split; [|exact Hget].
    unfold removeItem. simpl. now rewrite Hc.
Qed.

Lemma getItemCount_after_update_witness :
  (exists db',
     addItem iron5 (VStr "iron") (Num 3%float) (VStr "normal") = Ok db' /\
     getItemCount db' (VStr "iron") (VStr "normal") =
       Ok (if number_truthy (5 + 3)%float then Num (5 + 3)%float
           else Num 0%float)) /\
  (exists db',
     removeItem iron5 (VStr "iron") (Num 3%float) (VStr "normal") = Ok db' /\
     getItemCount db' (VStr "iron") (VStr "normal") =
       Ok (if number_truthy (5 + - 3)%float then Num (5 + - 3)%float
           else Num 0%float)).
Proof.
  apply (getItemCount_after_update iron5 "iron" "normal" 3%float 5%float).
  - reflexivity.
  - reflexivity.
Defined.

(** X7.  Integer counts.  When the ledger keeps the integer [zs] for a name
    and a quality, adding the integer [zc] makes [getItemCount] answer
    [zs + zc] and removing it makes it answer [zs - zc], a negative
    number when [zc] is the greater: exactly, as long as the integers
    involved are at most 2^53 in magnitude. *)
Theorem integer_counts_add_and_subtract
    (db : ItemDatabase) (n q : string) (zs zc : Z) :
  count_of db n q = Some (of_Z zs) ->
  exact_integer zs -> exact_integer zc ->
  (exact_integer (zs + zc) ->
   exists db',
     addItem db (VStr n) (Num (of_Z zc)) (VStr q) = Ok db' /\
     getItemCount db' (VStr n) (VStr q) = Ok (Num (of_Z (zs + zc)))) /\
  (exact_integer (zs - zc) ->
   exists db',
     removeItem db (VStr n) (Num (of_Z zc)) (VStr q) = Ok db' /\
     getItemCount db' (VStr n) (VStr q) = Ok (Num (of_Z (zs - zc)))).
Proof.
  intros Hs Hzs Hzc.
  pose proof (is_nan_of_Z zc Hzc) as Hnan. split; intros Hsum.
  - destruct (getItemCount_addItem db n q (of_Z zc) (of_Z zs) Hnan Hs)
      as (db' & Hadd & Hget).
    exists db'. split; [exact Hadd|].
    now rewrite Hget, of_Z_add, of_Z_reads.
  - assert (Hnan' : is_nan (- of_Z zc)%float = false) by now rewrite is_nan_opp.
    destruct (getItemCount_addItem db n q (- of_Z zc)%float (of_Z zs) Hnan' Hs)
      as (db' & Hadd & Hget).
    exists db'. split.
    + unfold removeItem. simpl. now rewrite Hnan.
    + now rewrite Hget, of_Z_sub, of_Z_reads.
Qed.

Lemma integer_counts_add_and_subtract_witness :
  (exact_integer (5 + 3) ->
   exists db',
     addItem iron5 (VStr "iron") (Num (of_Z 3)) (VStr "normal") = Ok db' /\
     getItemCount db' (VStr "iron") (VStr "normal") = Ok (Num (of_Z (5 + 3)))) /\
  (exact_integer (5 - 3) ->
   exists db',
     removeItem iron5 (VStr "iron") (Num (of_Z 3)) (VStr "normal") = Ok db' /\
     getItemCount db' (VStr "iron") (VStr "normal") = Ok (Num (of_Z (5 - 3)))).
Proof.
  apply (integer_counts_add_and_subtract iron5 "iron" "normal" 5 3).
  - reflexivity.
  - unfold exact_integer. lia.
  - unfold exact_integer. lia.
Defined.

(** X8.  The entries [getEntries] gives keep their order: whatever the calls,
    the names the ledger had come first, in the order they had, and the
    names the calls brought come after them. *)
Theorem getEntries_order_is_stable (db : ItemDatabase) (calls : list call) :
  exists suffix,
    map fst (getEntries (fold_left after calls db)) =
      map fst (getEntries db) ++ suffix.
Proof.
  change (exists suffix, names (fold_left after calls db) = names db ++ suffix).
  revert db. induction calls as [|call calls IH]; intros db; simpl.
  - exists []. now rewrite app_nil_r.
  - destruct (IH (after db call)) as [suffix ->].
    destruct (after_names db call) as [suffix' ->].
    exists (suffix' ++ suffix). now rewrite app_assoc.
Qed.

(** X9.  A quality that names a member of [Object.prototype].  For an item
    the ledger has, with no count stored under such a quality,
    [getItemCount] answers that member, not 0; [addItem] stores under the
    quality the text of the member followed by the count, and stores
    nothing when the quality is [__proto__]. *)
Theorem inherited_quality_reads_Object_prototype
    (db : ItemDatabase) (n q : string) (r : ItemCountWithQuality) (c : number) :
  map_get String.eqb (_items db) n = Some r ->
  own r q = None ->
  inherited q = true ->
  is_nan c = false ->
  getItemCount db (VStr n) (VStr q) = Ok (Builtin q) /\
  addItem db (VStr n) (Num c) (VStr q) =
    Ok {| _items :=
            map_set String.eqb (_items db) n
              (if q =? "__proto__" then r
               else define r q (Glued (Builtin q) c)) |}.
Proof.
  intros Hn Hq Hi Hc. split.
  - unfold getItemCount. simpl. rewrite Hn. unfold get. now rewrite Hq, Hi.
  - unfold addItem. simpl. rewrite Hc. simpl. rewrite Hn.
    unfold get. rewrite Hq, Hi. simpl.
    unfold assign, has_own. rewrite Hq.
    now destruct (q =? "__proto__").
Qed.

Lemma inherited_quality_reads_Object_prototype_witness :
  getItemCount iron5 (VStr "iron") (VStr "toString") = Ok (Builtin "toString") /\
  addItem iron5 (VStr "iron") (Num 1%float) (VStr "toString") =
    Ok {| _items :=
            map_set String.eqb (_items iron5) "iron"
              (if "toString" =? "__proto__" then [("normal", Num 5%float)]
               else define [("normal", Num 5%float)] "toString"
                      (Glued (Builtin "toString") 1%float)) |}.
Proof.
  apply (inherited_quality_reads_Object_prototype iron5 "iron" "toString"
           [("normal", Num 5%float)] 1%float); reflexivity.
Defined.

(** ** The ledger: what [serialize] writes *)

Section SerializeContent.
Implicit Types (db : ItemDatabase) (n q : string) (obj : snapshot).

Lemma map_get_In {V} (m : list (string * V)) k v :
  map_get String.eqb m k = Some v -> In (k, v) m.
Proof.
  induction m as [|[k0 v0] m IH]; simpl; [discriminate|].
  destruct (k0 =? k) eqn:E.
  - apply String.eqb_eq in E. subst k0. intros [= ->]. now left.
  - intros H. right. now apply IH.
Qed.

Lemma serialize_quality_writes name qualities obj q s :
  inherited name = false -> q <> "__proto__" ->
  own qualities q = Some s -> differs_from_zero s = true ->
  written (serialize_quality name qualities obj q) name q s.
Proof.
  intros Hi Hq Hs Hd. unfold serialize_quality, get. rewrite Hs, Hd, Hi.
  rewrite orb_false_r.
  assert (Hassign : forall target, own (assign target q s) q = Some s).
  { intros target. unfold assign.
    apply String.eqb_neq in Hq. rewrite Hq.
    destruct (has_own target q); now rewrite own_define, String.eqb_refl. }
  unfold has_own. destruct (own obj name) as [target|] eqn:Ho.
  - rewrite Ho. exists (assign target q s).
    now rewrite own_define, String.eqb_refl.
  - rewrite own_define, String.eqb_refl.
    exists (assign [] q s). now rewrite own_define, String.eqb_refl.
Qed.

Lemma serialize_quality_keeps name qualities obj quality name0 q0 s0 :
  name <> name0 \/ quality <> q0 ->
  written obj name0 q0 s0 ->
  written (serialize_quality name qualities obj quality) name0 q0 s0.
Proof.
  intros Hother (rec & Hrec & Hs0). unfold serialize_quality.
  destruct (differs_from_zero (get qualities quality)); [|now exists rec].
  destruct (String.eqb_spec name name0) as [->|Hn].
  - assert (Hq : quality <> q0) by (destruct Hother; congruence).
    unfold has_own. rewrite Hrec. cbn [orb]. rewrite Hrec.
    exists (assign rec quality (get qualities quality)).
    rewrite own_define, String.eqb_refl. split; [reflexivity|].
    now rewrite own_assign_other.
  - set (obj1 := if has_own obj name || inherited name then obj
                 else define obj name []).
    assert (H1 : own obj1 name0 = Some rec).
    { unfold obj1. destruct (has_own obj name || inherited name); trivial.
      rewrite own_define. apply String.eqb_neq in Hn. now rewrite Hn. }
    destruct (own obj1 name) as [target|]; [|now exists rec].
    exists rec. rewrite own_define. apply String.eqb_neq in Hn.
    now rewrite Hn.
Qed.

Lemma serialize_item_writes name qualities q s :
  inherited name = false -> q <> "__proto__" ->
  own qualities q = Some s -> differs_from_zero s = true ->
  forall obj, written (serialize_item obj (name, qualities)) name q s.
Proof.
  intros Hi Hq Hs Hd obj. unfold serialize_item.
  assert (Hin : In q (keys qualities)).
  { apply own_In in Hs. now apply (in_map fst) in Hs. }
  assert (H : forall l obj,
            In q l \/ written obj name q s ->
            written (fold_left (serialize_quality name qualities) l obj)
              name q s).
  { induction l as [|k l IH]; intros obj0 H0; simpl.
    - destruct H0 as [[]|H0]. exact H0.
    - apply IH. destruct (String.eqb_spec k q) as [->|Hk].
      + right. now apply serialize_quality_writes.
      + destruct H0 as [[?|H0]|H0]; [contradiction|now left|].
        right. apply serialize_quality_keeps; auto. }
  apply H. now left.
Qed.

Lemma serialize_item_keeps name qualities name0 q0 s0 :
  name <> name0 ->
  forall obj, written obj name0 q0 s0 ->
              written (serialize_item obj (name, qualities)) name0 q0 s0.
Proof.
  intros Hn obj. unfold serialize_item. revert obj.
  induction (keys qualities) as [|k l IH]; intros obj H; simpl; trivial.
  apply IH. apply serialize_quality_keeps; auto.
Qed.

Lemma serialize_items_write name qualities q s :
  inherited name = false -> q <> "__proto__" ->
  own qualities q = Some s -> differs_from_zero s = true ->
  forall items obj,
    NoDup (map fst items) ->
    In (name, qualities) items \/
      written obj name q s /\ ~ In name (map fst items) ->
    written (fold_left serialize_item items obj) name q s.
Proof.
  intros Hi Hq Hs Hd.
  induction items as [|[n0 r0] items IH]; intros obj Hnd H; simpl.
  - destruct H as [[]|[H _]]. exact H.
  - inversion Hnd as [|? ? Hnot Hnd']; subst. apply IH; trivial.
    destruct H as [[E|Hin]|[Hw Hnotin]].
    + injection E as -> ->. right. split; [|exact Hnot].
      now apply serialize_item_writes.
    + now left.
    + right. split.
      * apply serialize_item_keeps; trivial.
        intros ->. apply Hnotin. now left.
      * intros Hin. apply Hnotin. now right.
Qed.

Lemma normal_record_single q (x : number) :
  array_index q = None -> q <> "__proto__" ->
  is_nan x = false -> is_zero x = false ->
  normal_record [(q, Num x)].
Proof.
  intros Hq Hp Hn Hz. split; [discriminate|]. split.
  - apply property_order_plain; repeat constructor; simpl; auto.
  - repeat constructor; simpl; auto.
    + now exists x.
    + now rewrite Hz.
Qed.
End SerializeContent.

(** The names of the ledger that are not names of members of
    [Object.prototype]. *)
Lemma resident_not_inherited (db : ItemDatabase) (name : string)
    (qualities : ItemCountWithQuality) :
  Forall (fun n => inherited n = false) (names db) ->
  map_get String.eqb (_items db) name = Some qualities ->
  inherited name = false.
Proof.
  intros Hall Hn. apply map_get_In in Hn. apply (in_map fst) in Hn.
  rewrite Forall_forall in Hall. now apply Hall.
Qed.

(** X10.  What [serialize] writes.  Take a ledger with one entry per name, as
    every ledger has, and no item named as a member of
    [Object.prototype].  A count of the output is a count the ledger
    stores for that name and quality, and it differs from 0.  The other
    way round, a stored count that differs from 0 is in the output, under
    its name and quality, unless the quality is [__proto__]. *)
Theorem serialize_writes_the_nonzero_counts
    (db : ItemDatabase) (name q : string) (s : slot) :
  NoDup (names db) ->
  Forall (fun n => inherited n = false) (names db) ->
  (written (serialize db) name q s ->
   stored db name q = Some s /\ differs_from_zero s = true) /\
  (q <> "__proto__" ->
   stored db name q = Some s -> differs_from_zero s = true ->
   written (serialize db) name q s).
Proof.
  intros Hnd Hnames. split.
  - intros (rec & Hrec & Hs).
    destruct (serialize_from_ledger db name rec Hrec) as [_ H].
    destruct (H q s Hs) as (Hd & qualities & Hin & Hown).
    split; [|exact Hd]. unfold stored.
    now rewrite (map_get_NoDup (_items db) name qualities Hnd Hin).
  - intros Hq Hst Hd. unfold stored in Hst.
    destruct (map_get String.eqb (_items db) name) as [qualities|] eqn:Hn;
      [|discriminate].
    pose proof (resident_not_inherited db name qualities Hnames Hn) as Hi.
    apply (serialize_items_write name qualities q s Hi Hq Hst Hd
             (_items db) [] Hnd).
    left. now apply map_get_In.
Qed.

Lemma serialize_writes_the_nonzero_counts_witness :
  (written (serialize iron5) "iron" "normal" (Num 5%float) ->
   stored iron5 "iron" "normal" = Some (Num 5%float) /\
   differs_from_zero (Num 5%float) = true) /\
  ("normal" <> "__proto__" ->
   stored iron5 "iron" "normal" = Some (Num 5%float) ->
   differs_from_zero (Num 5%float) = true ->
   written (serialize iron5) "iron" "normal" (Num 5%float)).
Proof.
  apply (serialize_writes_the_nonzero_counts iron5 "iron" "normal"
           (Num 5%float)).
  - repeat constructor. simpl. intuition.
  - repeat constructor.
Defined.

(** A count that equals 0 is read as 0. *)
Lemma zero_count_reads_zero (s : slot) :
  differs_from_zero s = false -> slot_truthy s = false.
Proof.
  destruct s as [[]| |]; simpl; try discriminate.
  intros H. apply negb_false_iff in H.
  unfold truthy. now rewrite is_zero_falsy.
Qed.

(** X1.  Restoring a serialized ledger.  Take a ledger with one entry per
    name, no item named as a member of [Object.prototype], counts that
    are numbers other than NaN and no count other than 0 under a quality
    named [__proto__].  The constructor accepts what [serialize] returns;
    the restored ledger answers every [getItemCount] as the first one
    does, for qualities that are not names of members of
    [Object.prototype]; and it serializes to the same output. *)
Theorem restore_preserves_counts (db : ItemDatabase) :
  restorable db ->
  NoDup (names db) ->
  Forall (fun n => inherited n = false) (names db) ->
  exists db',
    constructor (Some (entries_of (serialize db))) = Ok db' /\
    serialize db' = serialize db /\
    forall n q, inherited q = false ->
      getItemCount db' (VStr n) (VStr q) = getItemCount db (VStr n) (VStr q).
Proof.
  intros Hdb Hnd Hnames.
  pose proof (serialize_normal_form db Hdb) as Hnf.
  exists {| _items := serialize db |}. split; [|split].
  - now apply constructor_normal_form.
  - unfold serialize at 1. cbn [_items].
    now rewrite (serialize_rebuild (serialize db) []).
  - intros n q Hq. rewrite !getItemCount_by_stored by trivial. f_equal.
    assert (Hsnd : NoDup (map fst (serialize db))).
    { destruct Hnf as [Hpo _]. now apply property_order_NoDup in Hpo. }
    assert (Hsound : forall s,
              stored {| _items := serialize db |} n q = Some s ->
              stored db n q = Some s /\ differs_from_zero s = true).
    { intros s Hs. unfold stored in Hs. cbn [_items] in Hs.
      destruct (map_get String.eqb (serialize db) n) as [rec|] eqn:Hn;
        [|discriminate Hs].
      destruct (serialize_from_ledger db n rec) as [_ H].
      - apply own_NoDup; trivial. now apply map_get_In.
      - destruct (H q s Hs) as (Hd & qualities & Hin & Hown).
        split; [|exact Hd]. unfold stored.
        now rewrite (map_get_NoDup (_items db) n qualities Hnd Hin). }
    assert (Hcomplete : forall s,
              stored db n q = Some s -> differs_from_zero s = true ->
              stored {| _items := serialize db |} n q = Some s).
    { intros s Hs Hd. unfold stored in Hs.
      destruct (map_get String.eqb (_items db) n) as [qualities|] eqn:Hn;
        [|discriminate Hs].
      pose proof (resident_not_inherited db n qualities Hnames Hn) as Hi.
      assert (Hp : q <> "__proto__")
        by now apply String.eqb_neq, inherited_proto.
      destruct (serialize_items_write n qualities q s Hi Hp Hs Hd
                  (_items db) [] Hnd) as (rec & Hrec & Hown).
      { left. now apply map_get_In. }
      unfold stored. cbn [_items].
      apply own_In in Hrec.
      now rewrite (map_get_NoDup (serialize db) n rec Hsnd Hrec). }
    destruct (stored {| _items := serialize db |} n q) as [s'|] eqn:Hs'.
    + destruct (Hsound s' eq_refl) as [-> _]. reflexivity.
    + destruct (stored db n q) as [s|] eqn:Hs; [|reflexivity].
      destruct (differs_from_zero s) eqn:Hd.
      * discriminate (Hcomplete s eq_refl Hd).
      * now rewrite (zero_count_reads_zero s Hd).
Qed.

Lemma restore_preserves_counts_witness :
  exists db',
    constructor (Some (entries_of (serialize iron5))) = Ok db' /\
    serialize db' = serialize iron5 /\
    forall n q, inherited q = false ->
      getItemCount db' (VStr n) (VStr q) = getItemCount iron5 (VStr n) (VStr q).
Proof.
  apply (restore_preserves_counts iron5).
  - intros name qualities q s [[= <- <-]|[]]. cbn [own].
    destruct ("normal" =? q) eqn:E; intros H; [|discriminate H].
    injection H as <-. apply String.eqb_eq in E. subst q. split.
    + now exists 5%float.
    + discriminate.
  - repeat constructor. simpl. intuition.
  - repeat constructor.
Defined.

(** X2.  Restoring and serializing.  Take the entries of a serialized ledger,
    each a record of counts or, in the old format, a bare number, and
    suppose that with the bare numbers written as records they are what
    [serialize] writes: names and qualities in property order, no name of
    a member of [Object.prototype], no empty record, no quality named
    [__proto__], counts that are numbers other than 0 and NaN.  Then the
    constructed ledger holds these records, and [serialize] gives them
    back, the old format upgraded. *)
Theorem constructor_then_serialize (entries : list (string * entry)) :
  normal_form (map (fun e => (fst e, migrate (snd e))) entries) ->
  exists db,
    constructor (Some entries) = Ok db /\
    getEntries db = map (fun e => (fst e, migrate (snd e))) entries /\
    serialize db = map (fun e => (fst e, migrate (snd e))) entries.
Proof.
  intros Hnf. set (s := map (fun e => (fst e, migrate (snd e))) entries) in *.
  assert (Hnd : NoDup (map fst entries)).
  { destruct Hnf as [Hpo _]. apply property_order_NoDup in Hpo.
    unfold keys, s in Hpo. now rewrite map_map in Hpo. }
  assert (Hvalid : Forall (fun e => Forall valid_count (map snd (migrate (snd e))))
                     entries).
  { destruct Hnf as [_ Hall]. unfold s in Hall. rewrite Forall_map in Hall.
    eapply Forall_impl; [|exact Hall]. intros [name e] [_ (_ & _ & Hrec)].
    cbn [fst snd] in *. rewrite Forall_map.
    eapply Forall_impl; [|exact Hrec]. now intros p (_ & Hv & _). }
  destruct (restore_cases entries []) as [[[items Hok] _]|[_ Hbad]];
    [|contradiction].
  pose proof (restore_fresh entries [] items Hok Hnd (fun _ _ => eq_refl)) as E.
  cbn [app] in E. fold s in E. subst items.
  exists {| _items := s |}. split; [|split].
  - unfold constructor. now rewrite Hok.
  - reflexivity.
  - unfold serialize. cbn [_items].
    now rewrite (serialize_rebuild s []).
Qed.

Lemma constructor_then_serialize_witness :
  exists db,
    constructor (Some [("wood", Bare 5%float);
                       ("iron", Qualities [("rare", Num 2%float)])]) = Ok db /\
    getEntries db =
      map (fun e => (fst e, migrate (snd e)))
        [("wood", Bare 5%float); ("iron", Qualities [("rare", Num 2%float)])] /\
    serialize db =
      map (fun e => (fst e, migrate (snd e)))
        [("wood", Bare 5%float); ("iron", Qualities [("rare", Num 2%float)])].
Proof.
  apply (constructor_then_serialize
           [("wood", Bare 5%float); ("iron", Qualities [("rare", Num 2%float)])]).
  split.
  - apply property_order_plain; repeat constructor; simpl; intuition discriminate.
  - constructor; [|constructor; [|constructor]];
      (split; [reflexivity
              |apply normal_record_single; try reflexivity; discriminate]).
Defined.

(** ** The ledger: counts are numbers *)

Section NumericCounts.
Implicit Types (db : ItemDatabase) (n q : string) (c x : number).

Lemma Forall_map_set {V} (Q : V -> Prop) (m : list (string * V)) k v :
  Forall (fun item => Q (snd item)) m -> Q v ->
  Forall (fun item => Q (snd item)) (map_set String.eqb m k v).
Proof.
  intros Hm Hv. induction Hm as [|[k0 v0] m H0 Hm IH]; simpl.
  - now repeat constructor.
  - destruct (k0 =? k); now constructor.
Qed.

Lemma valid_counts_numeric (r : ItemCountWithQuality) :
  Forall valid_count (map snd r) -> numeric_record r.
Proof.
  unfold numeric_record. rewrite Forall_map.
  apply Forall_impl. intros p (x & Hx & _). now exists x.
Qed.

Lemma restore_numeric entries : forall items items',
  restore items entries = Ok items' ->
  Forall (fun item => numeric_record (snd item)) items ->
  Forall (fun item => numeric_record (snd item)) items'.
Proof.
  induction entries as [|[name e] entries IH]; simpl; intros items items' H Hn.
  - now injection H as <-.
  - destruct (check_counts_cases (map snd (migrate e))) as [[E Hv]|[E _]];
      rewrite E in H; [|discriminate H].
    simpl in H. apply IH in H; trivial.
    apply Forall_map_set; trivial. now apply valid_counts_numeric.
Qed.

Lemma addItem_numeric db name count quality db' :
  numeric db ->
  plain_quality (AddItem name count quality) ->
  addItem db name count quality = Ok db' ->
  numeric db'.
Proof.
  unfold numeric, addItem. intros Hdb Hq.
  destruct name as [| | | |n| |]; try discriminate. cbn [checkName bind].
  destruct (checkCount count) as [c|]; [|discriminate]. cbn [bind].
  destruct quality as [| | | |q| |]; try discriminate. cbn [checkQuality bind].
  simpl in Hq.
  destruct (map_get String.eqb (_items db) n) as [r|] eqn:Hn;
    intros [= <-]; cbn [_items]; apply Forall_map_set; trivial.
  - assert (Hr : numeric_record r).
    { apply map_get_In in Hn. rewrite Forall_forall in Hdb.
      apply (Hdb (n, r) Hn). }
    assert (Hsum : exists x, js_add (coalesce (get r q) (Num 0%float)) c = Num x).
    { unfold get. destruct (own r q) as [s|] eqn:Hs.
      - apply own_In in Hs. unfold numeric_record in Hr.
        rewrite Forall_forall in Hr. destruct (Hr (q, s) Hs) as [a Ha].
        simpl in Ha. subst s. simpl. eauto.
      - rewrite Hq. simpl. eauto. }
    destruct Hsum as [x ->].
    unfold assign. rewrite (inherited_proto q Hq).
    destruct (has_own r q); apply Forall_define; trivial; simpl; eauto.
  - repeat constructor. simpl. eauto.
Qed.

Lemma after_numeric db call :
  numeric db -> plain_quality call -> numeric (after db call).
Proof.
  intros Hdb Hq.
  destruct call as [| name count quality | name count quality | |]; simpl;
    trivial.
  - destruct (addItem db name count quality) as [db'|] eqn:E; trivial.
    eapply addItem_numeric; eauto.
  - destruct (removeItem db name count quality) as [db'|] eqn:E; trivial.
    destruct (removeItem_addItem _ _ _ _ _ E) as [c Hc].
    eapply (addItem_numeric db name (Num (- c)%float) quality); eauto.
Qed.
End NumericCounts.

(** X11.  The counts of a ledger stay numbers.  Start from [constructor] and
    make any calls in which no quality names a member of
    [Object.prototype]: every count the ledger stores is a number. *)
Theorem counts_stay_numbers
    (serialized : option (list (string * entry))) (calls : list call)
    (db0 : ItemDatabase) :
  constructor serialized = Ok db0 ->
  Forall plain_quality calls ->
  numeric (fold_left after calls db0).
Proof.
  intros Hc Hcalls.
  assert (H0 : numeric db0).
  { unfold constructor in Hc. destruct serialized as [entries|].
    - destruct (restore [] entries) as [items|] eqn:Hr; [|discriminate Hc].
      injection Hc as <-. unfold numeric. cbn [_items].
      apply (restore_numeric entries [] items Hr). constructor.
    - injection Hc as <-. constructor. }
  clear Hc. revert db0 H0.
  induction Hcalls as [|call calls Hcall _ IH]; intros db0 H0; simpl; trivial.
  apply IH. now apply after_numeric.
Qed.

Lemma counts_stay_numbers_witness :
  numeric
    (fold_left after
       [AddItem (VStr "iron") (Num infinity) (VStr "normal");
        RemoveItem (VStr "iron") (Num infinity) (VStr "normal");
        RemoveItem (VStr "wood") (Num 2%float) (VStr "rare")] empty).
Proof.
  apply (counts_stay_numbers None
           [AddItem (VStr "iron") (Num infinity) (VStr "normal");
            RemoveItem (VStr "iron") (Num infinity) (VStr "normal");
            RemoveItem (VStr "wood") (Num 2%float) (VStr "rare")] empty).
  - reflexivity.
  - repeat constructor.
Defined.

(** X12.  [size] grows by one exactly when a call names an item the ledger
    does not have yet, whatever the count, and [removeItem] brings a name
    in as [addItem] does. *)
Theorem size_grows_with_new_names
    (db : ItemDatabase) (n q : string) (c : number) :
  is_nan c = false ->
  (exists db',
     addItem db (VStr n) (Num c) (VStr q) = Ok db' /\
     resident db' n = true /\
     size db' = if resident db n then size db else S (size db)) /\
  (exists db',
     removeItem db (VStr n) (Num c) (VStr q) = Ok db' /\
     resident db' n = true /\
     size db' = if resident db n then size db else S (size db)).
Proof.
  intros Hc.
  assert (Hadd : forall c0, is_nan c0 = false ->
            exists db',
              addItem db (VStr n) (Num c0) (VStr q) = Ok db' /\
              resident db' n = true /\
              size db' = if resident db n then size db else S (size db)).
  { intros c0 Hc0. unfold addItem, resident, size, map_has. simpl.
    rewrite Hc0. simpl.
    destruct (map_get String.eqb (_items db) n) as [r|] eqn:Hn;
      eexists; (split; [reflexivity|]); cbn [_items];
      rewrite map_get_set, String.eqb_refl, map_set_length;
      unfold map_has; rewrite Hn; now split. }
  split; [now apply Hadd|].
  destruct (Hadd (- c)%float) as (db' & H1 & H2 & H3);
    [now rewrite is_nan_opp|].
  exists db'. split; [|now split].
  unfold removeItem. simpl. now rewrite Hc.
Qed.

Lemma size_grows_with_new_names_witness :
  (exists db',
     addItem iron5 (VStr "wood") (Num 0%float) (VStr "normal") = Ok db' /\
     resident db' "wood" = true /\
     size db' = if resident iron5 "wood" then size iron5 else S (size iron5)) /\
  (exists db',
     removeItem iron5 (VStr "wood") (Num 0%float) (VStr "normal") = Ok db' /\
     resident db' "wood" = true /\
     size db' = if resident iron5 "wood" then size iron5 else S (size iron5)).
Proof.
  apply (size_grows_with_new_names iron5 "wood" "normal" 0%float).
  reflexivity.
Defined.

(** X13.  What [getItemCount] can answer.  On a ledger whose counts are
    numbers, for a quality that does not name a member of
    [Object.prototype], the answer is a number, and it is 0 or a number
    that is neither a zero nor NaN: a stored [-0] or NaN is never
    returned. *)
Theorem getItemCount_answers_a_count
    (db : ItemDatabase) (n q : string) :
  numeric db ->
  inherited q = false ->
  exists x,
    getItemCount db (VStr n) (VStr q) = Ok (Num x) /\
    (x = 0%float \/ number_truthy x = true).
Proof.
  intros Hdb Hq. rewrite getItemCount_by_stored by trivial.
  destruct (stored db n q) as [s|] eqn:Hs; [|exists 0%float; auto].
  unfold stored in Hs.
  destruct (map_get String.eqb (_items db) n) as [r|] eqn:Hn; [|discriminate Hs].
  apply map_get_In in Hn. apply own_In in Hs.
  unfold numeric in Hdb. rewrite Forall_forall in Hdb.
  pose proof (Hdb (n, r) Hn) as Hr. unfold numeric_record in Hr.
  rewrite Forall_forall in Hr. destruct (Hr (q, s) Hs) as [x Hx].
  simpl in Hx. subst s. simpl.
  destruct (number_truthy x) eqn:Ht; [exists x|exists 0%float]; auto.
Qed.

Lemma getItemCount_answers_a_count_witness :
  exists x,
    getItemCount iron_nan (VStr "iron") (VStr "normal") = Ok (Num x) /\
    (x = 0%float \/ number_truthy x = true).
Proof.
  apply (getItemCount_answers_a_count iron_nan "iron" "normal").
  - repeat constructor. simpl. eauto.
  - reflexivity.
Defined.

(** ** The codec: what is written and read back *)

Section CodecLookups.
Implicit Types (m : list (string * value)) (k : string).

Lemma Map_get_string_keyed (o : list (string * value)) k :
  Map_get (string_keyed o) (VStr k) = own o k.
Proof.
  unfold Map_get. induction o as [|[k0 v0] o IH]; simpl; [reflexivity|].
  now destruct (k0 =? k).
Qed.

Lemma Map_get_string_keyed_other (o : list (string * value)) key :
  typeof key <> "string" -> Map_get (string_keyed o) key = None.
Proof.
  intros H. unfold Map_get. induction o as [|[k0 v0] o IH]; simpl; [reflexivity|].
  destruct key; try exact IH. now contradiction H.
Qed.

Lemma own_map {A B} (f : A -> B) (o : list (string * A)) k :
  own (map (fun e => (fst e, f (snd e))) o) k = option_map f (own o k).
Proof.
  induction o as [|[k0 v0] o IH]; simpl; [reflexivity|].
  now destruct (k0 =? k).
Qed.



End CodecLookups.



Section LoadedObjects.
Implicit Types (m : list (string * value)) (k : string).

(** The entries [loadJsonAsMap] returns for the text of an object. *)
Lemma loadJsonAsMap_members d path gap members :
  file_at d path = Content (Json gap (JObject members)) ->
  loadJsonAsMap d path =
    Ok (string_keyed
          (from_entries (map (fun e => (fst e, revive (snd e))) members))) /\
  property_order
    (from_entries (map (fun e => (fst e, revive (snd e))) members)).
Proof.
  intros Hfile.
  set (o := from_entries (map (fun e => (fst e, revive (snd e))) members)).
  assert (Ho : property_order o).
  { unfold o, from_entries. apply from_entries_order. constructor. }
  split; [|exact Ho].
  rewrite (loadJsonAsMap_object d path gap (JObject members) o Hfile eq_refl).
  f_equal. apply new_Map_entries. now apply property_order_NoDup.
Qed.

Lemma In_keys_members (obj : list (string * value)) k :
  In k (keys (flat_map (fun e => match to_json (snd e) with
                                 | Some d => [(fst e, d)]
                                 | None => []
                                 end) obj)) ->
  In k (keys obj).
Proof.
  induction obj as [|[k0 v0] obj IH]; simpl; [trivial|].
  destruct (to_json v0); simpl; intuition.
Qed.

Lemma NoDup_keys_members (obj : list (string * value)) :
  NoDup (keys obj) ->
  NoDup (keys (flat_map (fun e => match to_json (snd e) with
                                  | Some d => [(fst e, d)]
                                  | None => []
                                  end) obj)).
Proof.
  induction obj as [|[k0 v0] obj IH]; simpl; intros H; [constructor|].
  inversion H as [|? ? Hnot Hnd]; subst.
  destruct (to_json v0); simpl; [|now apply IH].
  constructor; [|now apply IH].
  intros Hin. apply Hnot. now apply In_keys_members.
Qed.

Lemma own_members (obj : list (string * value)) k :
  NoDup (keys obj) ->
  own (flat_map (fun e => match to_json (snd e) with
                          | Some d => [(fst e, d)]
                          | None => []
                          end) obj) k =
    match own obj k with
    | Some v => to_json v
    | None => None
    end.
Proof.
  induction obj as [|[k0 v0] obj IH]; simpl; intros H; [reflexivity|].
  inversion H as [|? ? Hnot Hnd]; subst.
  destruct (String.eqb_spec k0 k) as [->|Hk].
  - destruct (to_json v0) as [d|]; simpl.
    + now rewrite String.eqb_refl.
    + rewrite IH by trivial. rewrite (own_None_keys obj k); [reflexivity|].
      apply Forall_forall. intros x Hx ->. contradiction.
  - destruct (to_json v0) as [d|]; simpl.
    + apply String.eqb_neq in Hk. rewrite Hk. now apply IH.
    + now apply IH.
Qed.
End LoadedObjects.



(** X16.  Saving and loading any values.  For a map with distinct string keys,
    none of them [__proto__], whatever its values, saving and then
    loading gives for each key what [JSON.parse] reads from what
    [JSON.stringify] wrote of its value.  So an entry whose value is
    [undefined] is gone, a number that is not finite comes back as
    [null], and [-0] comes back as [0]. *)
Theorem saveMapAsJson_loadJsonAsMap_lookup
    (d : disk) (path : string) (m : list (string * value)) :
  NoDup (map fst m) ->
  Forall (fun e => fst e <> "__proto__") m ->
  refused d path = None ->
  exists d' loaded,
    saveMapAsJson d path (string_keyed m) = (d', Ok tt) /\
    loadJsonAsMap d' path = Ok (string_keyed loaded) /\
    (forall k, own loaded k =
       match own m k with
       | Some v => option_map revive (to_json v)
       | None => None
       end) /\
    (forall k, own m k = Some VUndefined -> own loaded k = None) /\
    (forall k x, own m k = Some (VNum x) -> is_finite x = false ->
       own loaded k = Some VNull) /\
    (forall k x, own m k = Some (VNum x) -> is_finite x = true ->
       is_zero x = true -> own loaded k = Some (VNum 0%float)).
Proof.
  intros Hnd Hproto Hok.
  unfold saveMapAsJson, mapToObject.
  rewrite (mapToObject_from_entries m [] Hproto). fold (from_entries m).
  destruct (safeOutputFile d path (JSON_stringify_object (from_entries m) tab))
    as [d' r] eqn:Hsave.
  assert (r = Ok tt) as ->.
  { unfold safeOutputFile in Hsave. rewrite Hok in Hsave.
    now injection Hsave as _ <-. }
  destruct (safeOutputFile_read _ _ _ _ Hsave) as [Hfile _].
  unfold JSON_stringify_object in Hfile.
  destruct (loadJsonAsMap_members d' path tab _ Hfile) as [Hload _].
  assert (Hobj : NoDup (keys (from_entries m))).
  { apply property_order_NoDup. unfold from_entries.
    apply from_entries_order. constructor. }
  assert (Hlookup : forall k,
            own (from_entries
                   (map (fun e => (fst e, revive (snd e)))
                      (flat_map (fun e => match to_json (snd e) with
                                          | Some doc => [(fst e, doc)]
                                          | None => []
                                          end) (from_entries m)))) k =
            match own m k with
            | Some v => option_map revive (to_json v)
            | None => None
            end).
  { intros k. unfold from_entries at 1. rewrite own_from_entries.
    - rewrite own_map, own_members by trivial. cbn [own].
      unfold from_entries. rewrite own_from_entries by trivial. cbn [own].
      destruct (own m k) as [v|]; [|reflexivity].
      now destruct (to_json v).
    - unfold keys. rewrite map_map. cbn [fst].
      now apply NoDup_keys_members. }
  eexists d', _. split; [reflexivity|]. split; [exact Hload|].
  split; [exact Hlookup|]. repeat split.
  - intros k H. now rewrite Hlookup, H.
  - intros k x H Hx. rewrite Hlookup, H. simpl. now rewrite Hx.
  - intros k x H Hx Hz. rewrite Hlookup, H. simpl. now rewrite Hx, Hz.
Qed.

Lemma saveMapAsJson_loadJsonAsMap_lookup_witness :
  exists d' loaded,
    saveMapAsJson blank_disk "items.json"
      (string_keyed [("iron", VNum infinity); ("wood", VUndefined)]) =
      (d', Ok tt) /\
    loadJsonAsMap d' "items.json" = Ok (string_keyed loaded) /\
    (forall k, own loaded k =
       match own [("iron", VNum infinity); ("wood", VUndefined)] k with
       | Some v => option_map revive (to_json v)
       | None => None
       end) /\
    (forall k,
       own [("iron", VNum infinity); ("wood", VUndefined)] k = Some VUndefined ->
       own loaded k = None) /\
    (forall k x,
       own [("iron", VNum infinity); ("wood", VUndefined)] k = Some (VNum x) ->
       is_finite x = false -> own loaded k = Some VNull) /\
    (forall k x,
       own [("iron", VNum infinity); ("wood", VUndefined)] k = Some (VNum x) ->
       is_finite x = true -> is_zero x = true ->
       own loaded k = Some (VNum 0%float)).
Proof.
  apply (saveMapAsJson_loadJsonAsMap_lookup blank_disk "items.json"
           [("iron", VNum infinity); ("wood", VUndefined)]).
  - repeat constructor; simpl; intuition discriminate.
  - repeat constructor; discriminate.
  - reflexivity.
Defined.

(** ** The codec: arrays of objects with an [id] *)

Section ArrayRoundTrip.
Implicit Types (m acc : list (value * value)) (k v : value).

Lemma elements_revive (elems : list value) :
  Forall json_value elems ->
  map revive (map (fun e => match to_json e with
                            | Some d => d
                            | None => JNull
                            end) elems) = elems.
Proof.
  induction 1 as [|e elems He _ IH]; simpl; [reflexivity|].
  destruct (to_json_revive e He) as (doc & -> & ->). now rewrite IH.
Qed.

Lemma map_set_apart acc k v :
  forallb (fun e => negb (same_value_zero (fst e) k)) acc = true ->
  map_set same_value_zero acc k v = acc ++ [(k, v)].
Proof.
  induction acc as [|[k0 v0] acc IH]; simpl; [reflexivity|].
  intros H. apply andb_prop in H as [H1 H2].
  destruct (same_value_zero k0 k); [discriminate H1|].
  now rewrite IH.
Qed.

Lemma distinct_keys_middle acc k v m :
  distinct_keys (acc ++ (k, v) :: m) = true ->
  forallb (fun e => negb (same_value_zero (fst e) k)) acc = true.
Proof.
  induction acc as [|[k0 v0] acc IH]; simpl; [reflexivity|].
  intros H. apply andb_prop in H as [H1 H2].
  rewrite forallb_app in H1. apply andb_prop in H1 as [_ H1].
  simpl in H1. apply andb_prop in H1 as [H1 _].
  now rewrite H1, IH.
Qed.

(** A key that JSON reads back is kept by [Map.set] as it is. *)
Lemma Map_set_json_key acc k v :
  json_value k -> Map_set acc k v = map_set same_value_zero acc k v.
Proof.
  intros Hk. unfold Map_set. destruct k; trivial.
  destruct (is_zero x) eqn:Hz; trivial.
  inversion Hk as [| |? _ Hzero| | |]; subst. now rewrite (Hzero Hz).
Qed.

Lemma id_of_json_value v :
  json_value v -> id_of v <> VUndefined -> json_value (id_of v).
Proof.
  intros Hv Hid. destruct v; try (now contradiction Hid). simpl in *.
  destruct (own members "id") as [x|] eqn:Hx; [|now contradiction Hid].
  inversion Hv as [| | | | |? _ Hall]; subst.
  apply own_In in Hx. rewrite Forall_forall in Hall.
  apply (Hall ("id", x) Hx).
Qed.

Lemma index_by_id_rebuilds m : forall acc,
  Forall (fun e => json_value (snd e) /\ basicType (snd e) = "object" /\
                   id_of (snd e) = fst e /\ fst e <> VUndefined) m ->
  distinct_keys (acc ++ m) = true ->
  index_by_id acc (map snd m) = Ok (acc ++ m).
Proof.
  induction m as [|[k v] m IH]; intros acc Hall Hd; simpl.
  - now rewrite app_nil_r.
  - inversion Hall as [|? ? (Hv & Hobj & Hid & Hk) Hall']; subst.
    cbn [fst snd] in *.
    rewrite Hobj. cbn [String.eqb Ascii.eqb Bool.eqb negb].
    assert (Hjk : json_value k).
    { rewrite <- Hid. apply id_of_json_value; trivial. now rewrite Hid. }
    rewrite Hid.
    assert (E : match k with
                | VUndefined =>
                    Throw (Error "Expected all elements to have an id property")
                | _ => index_by_id (Map_set acc k v) (map snd m)
                end = index_by_id (acc ++ [(k, v)]) (map snd m)).
    { rewrite Map_set_json_key, map_set_apart; trivial.
      - destruct k; trivial. now contradiction Hk.
      - now apply (distinct_keys_middle acc k v m). }
    assert (E' : index_by_id (acc ++ [(k, v)]) (map snd m) =
                 Ok (acc ++ (k, v) :: m)).
    { rewrite IH; trivial; now rewrite <- app_assoc. }
    destruct k; try (now contradiction Hk); now rewrite <- E'.
Qed.
End ArrayRoundTrip.

(** X17.  Saving and loading an array of objects.  Take a map in which every
    value is an object that JSON reads back as it is and whose [id] is
    the key it is stored under.  [saveMapAsJsonArray] writes the values
    and not the keys; the write done, [loadJsonArrayAsMap] gives the
    same map back, keys, values and order. *)
Theorem saveMapAsJsonArray_loadJsonArrayAsMap_round_trip
    (d : disk) (path : string) (m : list (value * value)) :
  Forall (fun e => json_value (snd e) /\ basicType (snd e) = "object" /\
                   id_of (snd e) = fst e /\ fst e <> VUndefined) m ->
  distinct_keys m = true ->
  refused d path = None ->
  exists d',
    saveMapAsJsonArray d path m = (d', Ok tt) /\
    loadJsonArrayAsMap d' path = Ok m.
Proof.
  intros Hall Hd Hok. unfold saveMapAsJsonArray.
  destruct (safeOutputFile d path (JSON_stringify_array (map snd m) tab))
    as [d' r] eqn:Hsave.
  assert (r = Ok tt) as ->.
  { unfold safeOutputFile in Hsave. rewrite Hok in Hsave.
    now injection Hsave as _ <-. }
  destruct (safeOutputFile_read _ _ _ _ Hsave) as [Hfile _].
  exists d'. split; [reflexivity|].
  unfold loadJsonArrayAsMap, readFile. rewrite Hfile.
  unfold JSON_stringify_array. cbn [JSON_parse bind revive basicType].
  cbn [String.eqb Ascii.eqb Bool.eqb negb elements_of].
  rewrite elements_revive.
  - now rewrite (index_by_id_rebuilds m []).
  - rewrite Forall_map. eapply Forall_impl; [|exact Hall].
    now intros e (H & _).
Qed.

Lemma saveMapAsJsonArray_loadJsonArrayAsMap_round_trip_witness :
  exists d',
    saveMapAsJsonArray blank_disk "hosts.json"
      [(VNum 1%float, VObj [("id", VNum 1%float); ("name", VStr "a")]);
       (VStr "x", VObj [("id", VStr "x")])] = (d', Ok tt) /\
    loadJsonArrayAsMap d' "hosts.json" =
      Ok [(VNum 1%float, VObj [("id", VNum 1%float); ("name", VStr "a")]);
          (VStr "x", VObj [("id", VStr "x")])].
Proof.
  apply (saveMapAsJsonArray_loadJsonArrayAsMap_round_trip blank_disk "hosts.json").
  - assert (Hone : json_value (VNum 1%float)).
    { constructor; [reflexivity|]. intros H. discriminate H. }
    constructor; [|constructor; [|constructor]];
      (split; [|split; [reflexivity|split; [reflexivity|discriminate]]]);
      (constructor;
       [apply property_order_plain;
        [repeat constructor; simpl; intuition discriminate
        |repeat constructor]
       |]).
    + constructor; [exact Hone|]. constructor; constructor.
    + constructor; constructor.
  - reflexivity.
  - reflexivity.
Defined.

Section Unvalidated.
Implicit Types (v : value).

(** What is not an object is not read back as one. *)
Lemma not_object_read_back v :
  basicType v <> "object" ->
  basicType (revive (match to_json v with
                     | Some d => d
                     | None => JNull
                     end)) <> "object".
Proof.
  destruct v; simpl; intros H; try discriminate.
  - destruct (is_finite x); discriminate.
  - now contradiction H.
Qed.
End Unvalidated.

(** X18.  [saveMapAsJsonArray] checks nothing: it writes any values, the write
    permitting.  When a value is not an object, [loadJsonArrayAsMap]
    refuses the file it wrote. *)
Theorem saveMapAsJsonArray_checks_nothing
    (d : disk) (path : string) (m : list (value * value)) :
  refused d path = None ->
  exists d',
    saveMapAsJsonArray d path m = (d', Ok tt) /\
    (Exists (fun e => basicType (snd e) <> "object") m ->
     loadJsonArrayAsMap d' path =
       Throw (Error "Expected all elements to be objects") \/
     loadJsonArrayAsMap d' path =
       Throw (Error "Expected all elements to have an id property")).
Proof.
  intros Hok. unfold saveMapAsJsonArray.
  destruct (safeOutputFile d path (JSON_stringify_array (map snd m) tab))
    as [d' r] eqn:Hsave.
  assert (r = Ok tt) as ->.
  { unfold safeOutputFile in Hsave. rewrite Hok in Hsave.
    now injection Hsave as _ <-. }
  destruct (safeOutputFile_read _ _ _ _ Hsave) as [Hfile _].
  exists d'. split; [reflexivity|]. intros Hbad.
  unfold loadJsonArrayAsMap, readFile. rewrite Hfile.
  unfold JSON_stringify_array. cbn [JSON_parse bind revive basicType].
  cbn [String.eqb Ascii.eqb Bool.eqb negb elements_of or_empty_if_ENOENT].
  set (elems := map revive _).
  assert (Hex : Exists (fun e => basicType e <> "object" \/ id_of e = VUndefined)
                  elems).
  { unfold elems. clear -Hbad.
    induction Hbad as [[k v] m H|[k v] m _ IH]; simpl.
    - left. left. now apply not_object_read_back.
    - right. exact IH. }
  destruct (index_by_id_rejects elems [] Hex) as [-> | ->]; [now left|now right].
Qed.

Lemma saveMapAsJsonArray_checks_nothing_witness :
  exists d',
    saveMapAsJsonArray blank_disk "hosts.json"
      [(VNum 1%float, VStr "a")] = (d', Ok tt) /\
    (Exists (fun e => basicType (snd e) <> "object")
       [(VNum 1%float, VStr "a")] ->
     loadJsonArrayAsMap d' "hosts.json" =
       Throw (Error "Expected all elements to be objects") \/
     loadJsonArrayAsMap d' "hosts.json" =
       Throw (Error "Expected all elements to have an id property")).
Proof.
  apply (saveMapAsJsonArray_checks_nothing blank_disk "hosts.json"
           [(VNum 1%float, VStr "a")]).
  reflexivity.
Defined.
